(** * FinderItem, C component: the natural-order comparator and the traversal opener

    The C component of FinderItem is two functions (Sources/CComponent/source.c):

    - [cmp], the callback that orders two directory entries by handing their
      names to CoreFoundation's string comparison with the options
      [kCFCompareNumerically | kCFCompareWidthInsensitive];
    - [fts_cmp_open], which opens an [fts(3)] traversal with [cmp] as the
      sibling-ordering callback.

    Both are thin layers over the host platform.  The development embeds the two
    functions as they are written and places them on a model of the host calls
    they make: C strings and their UTF-8 decoding, [CFStringCreateWithCString],
    [CFStringCompareWithOptionsAndLocale], [CFRelease] and [fts_open]. *)

From Stdlib Require Import ZArith List Bool Lia String Ascii.
From Equations Require Import Equations.
Import ListNotations.

Local Open Scope Z_scope.

(** ** Outcomes of a C call

    A call either returns a value or is made outside the contract of the
    function called, in which case C defines no result: the CoreFoundation entry
    points used here require non-null string references and a range that lies
    inside the string it indexes. *)

Inductive fault : Type :=
| NullStringRef      (* a NULL CFStringRef was handed to CoreFoundation *)
| RangeBeyondString. (* a CFRange reaches past the end of its string *)

Inductive outcome (A : Type) : Type :=
| Returns (a : A)
| Undefined (why : fault).

Arguments Returns {A} a.
Arguments Undefined {A} why.

Definition bind {A B : Type} (m : outcome A) (k : A -> outcome B) : outcome B :=
  match m with
  | Returns a => k a
  | Undefined why => Undefined why
  end.

Notation "x <- m ;; k" := (bind m (fun x => k))
  (at level 61, m at next level, right associativity).
Notation "m ;;; k" := (bind m (fun _ => k))
  (at level 61, right associativity).

(** The result of a comparator as the sort that calls it reads it. *)
Definition negative (o : outcome Z) : bool :=
  match o with Returns z => z <? 0 | Undefined _ => false end.

(** ** C strings

    A C string is the bytes before its terminating NUL, each in 1..255. *)

Definition cstring : Type := list Z.

Definition strlen (s : cstring) : Z := Z.of_nat (List.length s).

Definition c_str (s : string) : cstring :=
  map (fun a => Z.of_N (N_of_ascii a)) (list_ascii_of_string s).

Definition is_ascii (b : Z) : bool := (0 <=? b) && (b <? 0x80).

(** ** UTF-8 and UTF-16

    [utf8_decode] is the strict decoder: shortest form only, no surrogate code
    points, nothing above U+10FFFF.  It yields the code points, or [None] when
    the bytes are not UTF-8. *)

Definition is_cont (b : Z) : bool := (0x80 <=? b) && (b <=? 0xBF).

Definition cont_bits (b : Z) : Z := Z.land b 0x3F.

Fixpoint utf8_decode (s : cstring) : option (list Z) :=
  match s with
  | [] => Some []
  | b0 :: t0 =>
    if is_ascii b0 then option_map (cons b0) (utf8_decode t0)
    else if (0xC2 <=? b0) && (b0 <=? 0xDF) then
      match t0 with
      | b1 :: t1 =>
        if is_cont b1
        then option_map (cons (Z.lor (Z.shiftl (Z.land b0 0x1F) 6) (cont_bits b1)))
                        (utf8_decode t1)
        else None
      | _ => None
      end
    else if (0xE0 <=? b0) && (b0 <=? 0xEF) then
      match t0 with
      | b1 :: b2 :: t2 =>
        let cp := Z.lor (Z.shiftl (Z.land b0 0x0F) 12)
                        (Z.lor (Z.shiftl (cont_bits b1) 6) (cont_bits b2)) in
        if is_cont b1 && is_cont b2 && (0x800 <=? cp)
           && negb ((0xD800 <=? cp) && (cp <=? 0xDFFF))
        then option_map (cons cp) (utf8_decode t2)
        else None
      | _ => None
      end
    else if (0xF0 <=? b0) && (b0 <=? 0xF4) then
      match t0 with
      | b1 :: b2 :: b3 :: t3 =>
        let cp := Z.lor (Z.shiftl (Z.land b0 0x07) 18)
                        (Z.lor (Z.shiftl (cont_bits b1) 12)
                               (Z.lor (Z.shiftl (cont_bits b2) 6) (cont_bits b3))) in
        if is_cont b1 && is_cont b2 && is_cont b3
           && (0x10000 <=? cp) && (cp <=? 0x10FFFF)
        then option_map (cons cp) (utf8_decode t3)
        else None
      | _ => None
      end
    else None
  end.

(** UTF-16 code units of one code point. *)
Definition utf16_units (cp : Z) : list Z :=
  if cp <? 0x10000 then [cp]
  else let v := cp - 0x10000 in
       [0xD800 + Z.shiftr v 10; 0xDC00 + Z.land v 0x3FF].

Definition utf16_encode (cps : list Z) : list Z := flat_map utf16_units cps.

(** ** CoreFoundation strings

    A [CFString] is its UTF-16 code units; a [CFStringRef] may be NULL.  [NULL]
    also stands for Objective-C's [nil], which the source passes as locale. *)

Definition CFString : Type := list Z.
Definition CFStringRef : Type := option CFString.

Definition NULL {A : Type} : option A := None.

Definition CFStringGetLength (s : CFString) : Z := Z.of_nat (List.length s).

Definition kCFStringEncodingUTF8 : Z := 0x08000100.

(** [CFStringCreateWithCString(alloc, cStr, encoding)]: a new string holding the
    decoded bytes, or NULL when they cannot be decoded.  Only the UTF-8 converter
    is modelled; a request for another encoding finds no converter. *)
Definition CFStringCreateWithCString (alloc : option unit) (cStr : cstring)
    (encoding : Z) : CFStringRef :=
  if encoding =? kCFStringEncodingUTF8
  then option_map utf16_encode (utf8_decode cStr)
  else NULL.

(** [CFRelease(cf)] needs a non-null reference. *)
Definition CFRelease (cf : CFStringRef) : outcome unit :=
  match cf with
  | Some _ => Returns tt
  | None => Undefined NullStringRef
  end.

Record CFRange : Type := { location : Z; length : Z }.

Definition CFRangeMake (loc len : Z) : CFRange :=
  {| location := loc; length := len |}.

(** Compare flags (CFString.h) and comparison results (CFBase.h). *)
Definition kCFCompareCaseInsensitive : Z := 1.
Definition kCFCompareBackwards : Z := 4.
Definition kCFCompareAnchored : Z := 8.
Definition kCFCompareNonliteral : Z := 16.
Definition kCFCompareLocalized : Z := 32.
Definition kCFCompareNumerically : Z := 64.
Definition kCFCompareDiacriticInsensitive : Z := 128.
Definition kCFCompareWidthInsensitive : Z := 256.
Definition kCFCompareForcedOrdering : Z := 512.

Definition kCFCompareLessThan : Z := -1.
Definition kCFCompareEqualTo : Z := 0.
Definition kCFCompareGreaterThan : Z := 1.

Definition has_flag (options flag : Z) : bool := negb (Z.land options flag =? 0).

(** The flags whose effect is written out below. *)
Definition literal_flags : Z :=
  Z.lor kCFCompareNumerically (Z.lor kCFCompareWidthInsensitive kCFCompareLocalized).

(** *** The comparison loop

    [is_digit] is the loop's test [(c <= '9') && (c >= '0')]: only ASCII digits
    start a numeric comparison. *)
Definition is_digit (c : Z) : bool := (c <=? 0x39) && (0x30 <=? c).

Definition UINT64_MOD : Z := 2 ^ 64.

(** The loop [do { v = v * 10 + (c - '0'); c = next; } while (digit c)] after its
    first assignment: [v] is a [uint64_t] and wraps. *)
Fixpoint scan_digits (v : Z) (s : list Z) : Z * list Z :=
  match s with
  | c :: t =>
    if is_digit c then scan_digits ((v * 10 + (c - 0x30)) mod UINT64_MOD) t
    else (v, s)
  | [] => (v, [])
  end.

Definition is_high_surrogate (c : Z) : bool := (0xD800 <=? c) && (c <=? 0xDBFF).
Definition is_low_surrogate (c : Z) : bool := (0xDC00 <=? c) && (c <=? 0xDFFF).

(** The character at the head of [c :: t] as a UTF-32 value, and what follows
    it: a high surrogate followed by a low one is read as one character. *)
Definition long_character (c : Z) (t : list Z) : Z * list Z :=
  match t with
  | c' :: t' =>
    if is_high_surrogate c && is_low_surrogate c'
    then (Z.shiftl (c - 0xD800) 10 + (c' - 0xDC00) + 0x10000, t')
    else (c, t)
  | [] => (c, t)
  end.

(** The value of the digit run that starts with the digit [c], and what follows
    the run. *)
Definition run_value (c : Z) (t : list Z) : Z := fst (scan_digits (c - 0x30) t).
Definition after_run (c : Z) (t : list Z) : list Z := snd (scan_digits (c - 0x30) t).

Definition after_character (c : Z) (t : list Z) : list Z := snd (long_character c t).

Lemma scan_digits_length (v : Z) (s : list Z) :
  (List.length (snd (scan_digits v s)) <= List.length s)%nat.
Proof.
  revert v; induction s as [|c t IH]; intros v; simpl; [lia|].
  destruct (is_digit c); simpl; [specialize (IH ((v * 10 + (c - 48)) mod UINT64_MOD)); lia | lia].
Qed.

Lemma long_character_length (c : Z) (t : list Z) :
  (List.length (snd (long_character c t)) <= List.length t)%nat.
Proof.
  destruct t as [|c' t']; simpl; [lia|].
  destruct (is_high_surrogate c && is_low_surrogate c'); simpl; lia.
Qed.

(** ** The host's data

    What CoreFoundation reads from its Unicode and locale data is taken as a
    parameter of the development:
    - [compat_decompose], the compatibility mapping of the code points of the
      block U+FF00..U+FFEF other than the fullwidth forms of ASCII (halfwidth
      katakana and hangul, fullwidth signs);
    - [CFLocale] and [collate], the comparison CoreFoundation performs when a
      locale is in force or when a flag outside [literal_flags] is set (case,
      diacritics, composition, forced ordering). *)

Record Host : Type := {
  CFLocale : Type;
  compat_decompose : Z -> Z;
  collate : option CFLocale -> Z -> CFString -> CFString -> Z
}.

Section CoreFoundation.

Context (host : Host).

Definition CFLocaleRef : Type := option (CFLocale host).

(** Width folding of one character under [kCFCompareWidthInsensitive]: the
    fullwidth forms U+FF01..U+FF5E are the ASCII characters U+0021..U+007E moved
    by 0xFEE0; the rest of the block goes through the host's table. *)
Definition fold_width (c : Z) : Z :=
  if (0xFF01 <=? c) && (c <=? 0xFF5E) then c - 0xFEE0
  else if (0xFF00 <=? c) && (c <=? 0xFFEF) then compat_decompose host c
  else c.

Definition folded (c : Z) (t : list Z) : Z := fold_width (fst (long_character c t)).

Definition less_or_greater (a b : Z) : Z :=
  if a <? b then kCFCompareLessThan else kCFCompareGreaterThan.

(** The loop of [CFStringCompareWithOptionsAndLocale] for a NULL locale, after
    the published CoreFoundation source (CFString.c), over what is left of the
    compared range of the first string ([s1]) and of the second string ([s2]).
    Each round either decides or consumes characters of both strings:
    - two ASCII digits start a numeric comparison of the two digit runs, when
      [numerically] is set;
    - equal code units are skipped;
    - different ones decide by code unit when no equality option is set, and
      otherwise are folded first and decide when they still differ.
    A string that ends first is the smaller one. *)
Equations? compare_loop (numerically width : bool) (s1 s2 : CFString) : Z
  by wf (List.length s1) lt :=
  compare_loop numerically width [] [] := kCFCompareEqualTo;
  compare_loop numerically width [] (_ :: _) := kCFCompareLessThan;
  compare_loop numerically width (_ :: _) [] := kCFCompareGreaterThan;
  compare_loop numerically width (c1 :: t1) (c2 :: t2) :=
    if numerically && is_digit c1 && is_digit c2 then
      if run_value c1 t1 =? run_value c2 t2
      then compare_loop numerically width (after_run c1 t1) (after_run c2 t2)
      else less_or_greater (run_value c1 t1) (run_value c2 t2)
    else if c1 =? c2 then compare_loop numerically width t1 t2
    else if negb width then less_or_greater c1 c2
    else if folded c1 t1 =? folded c2 t2
    then compare_loop numerically width (after_character c1 t1) (after_character c2 t2)
    else less_or_greater (folded c1 t1) (folded c2 t2).
Proof.
  - apply Nat.lt_succ_r, scan_digits_length.
  - apply Nat.lt_succ_r, long_character_length.
Qed.

Definition range_in_string (r : CFRange) (s : CFString) : bool :=
  (0 <=? location r) && (0 <=? length r)
  && (location r + length r <=? CFStringGetLength s).

Definition substring (r : CFRange) (s : CFString) : CFString :=
  firstn (Z.to_nat (length r)) (skipn (Z.to_nat (location r)) s).

(** [CFStringCompareWithOptionsAndLocale(string, string2, rangeToCompare,
    compareOptions, locale)] in a process whose current locale is [current].
    Both references must be non-null and the range must lie inside [string].
    With [kCFCompareLocalized] and a NULL locale the current locale is used; with
    no locale in force and only literal flags the loop above decides. *)
Definition CFStringCompareWithOptionsAndLocale (current : CFLocale host)
    (string string2 : CFStringRef) (rangeToCompare : CFRange)
    (compareOptions : Z) (locale : CFLocaleRef) : outcome Z :=
  match string, string2 with
  | Some s1, Some s2 =>
    if range_in_string rangeToCompare s1 then
      let locale :=
        match locale with
        | None => if has_flag compareOptions kCFCompareLocalized
                  then Some current else None
        | Some _ => locale
        end in
      match locale with
      | None =>
        if Z.land compareOptions (Z.lnot literal_flags) =? 0
        then Returns (compare_loop (has_flag compareOptions kCFCompareNumerically)
                                   (has_flag compareOptions kCFCompareWidthInsensitive)
                                   (substring rangeToCompare s1) s2)
        else Returns (collate host None compareOptions (substring rangeToCompare s1) s2)
      | Some _ =>
        Returns (collate host locale compareOptions (substring rangeToCompare s1) s2)
      end
    else Undefined RangeBeyondString
  | _, _ => Undefined NullStringRef
  end.

End CoreFoundation.

(** ** Directory entries (fts.h)

    The fields of [FTSENT] a comparator can read; [cmp] reads [fts_name]. *)

Record FTSENT : Type := {
  fts_number : Z;
  fts_accpath : cstring;
  fts_path : cstring;
  fts_errno : Z;
  fts_level : Z;
  fts_info : Z;
  fts_name : cstring
}.

(** The entry named [name] as [fts_open] makes it for a root: level 0, path and
    access path equal to the name. *)
Definition entry (name : cstring) : FTSENT :=
  {| fts_number := 0; fts_accpath := name; fts_path := name; fts_errno := 0;
     fts_level := 0; fts_info := 0; fts_name := name |}.

(** The conversion [(int)] of a [CFComparisonResult] (a [CFIndex]). *)
Definition to_int (z : Z) : Z := (z + 2 ^ 31) mod 2 ^ 32 - 2 ^ 31.

(** A sibling-ordering callback, [int (*)(const FTSENT **, const FTSENT **)],
    run in a process whose ambient state is [Env]. *)
Definition compar (Env : Type) : Type := Env -> FTSENT -> FTSENT -> outcome Z.

(** ** The traversal host (fts.h)

    [fts_open] belongs to the C library.  It is a parameter: a world of open
    descriptors and [errno], a type of streams, and the constructor itself,
    which returns a stream or NULL and the world it leaves. *)

Record FtsHost (Env : Type) : Type := {
  World : Type;
  FTS : Type;
  errno : World -> Z;
  descriptors : World -> nat;
  fts_open : list cstring -> Z -> compar Env -> World -> option FTS * World
}.

Arguments World {Env} f.
Arguments FTS {Env} f.
Arguments errno {Env} f w.
Arguments descriptors {Env} f w.
Arguments fts_open {Env} f path options compar w.

(** ** The source: Sources/CComponent/source.c *)

Section Source.

Context (host : Host).

(** [int cmp(const FTSENT **l, const FTSENT **r)], in a process whose current
    locale is [current]; [l] and [r] are the entries the two pointers lead to.
    The two strings are released after the comparison has returned. *)
Definition cmp (current : CFLocale host) (l r : FTSENT) : outcome Z :=
  let lhs := fts_name l in
  let rhs := fts_name r in
  let lhsString := CFStringCreateWithCString NULL lhs kCFStringEncodingUTF8 in
  let rhsString := CFStringCreateWithCString NULL rhs kCFStringEncodingUTF8 in
  returnValue <-
    (result <- CFStringCompareWithOptionsAndLocale host current lhsString rhsString
                 (CFRangeMake 0 (strlen lhs))
                 (Z.lor kCFCompareNumerically kCFCompareWidthInsensitive) NULL ;;
     Returns (to_int result)) ;;
  CFRelease lhsString ;;;
  CFRelease rhsString ;;;
  Returns returnValue.

Context (os : FtsHost (CFLocale host)).

(** [FTS* fts_cmp_open(char * const * path, int options)]. *)
Definition fts_cmp_open (path : list cstring) (options : Z) (w : World os)
    : option (FTS os) * World os :=
  fts_open os path options cmp w.

End Source.

(** ** Hosts to run the code on *)

(** Order by code unit, the shorter of two strings that agree being first. *)
Fixpoint code_unit_order (a b : list Z) : Z :=
  match a, b with
  | [], [] => kCFCompareEqualTo
  | [], _ :: _ => kCFCompareLessThan
  | _ :: _, [] => kCFCompareGreaterThan
  | x :: a', y :: b' =>
    if x =? y then code_unit_order a' b'
    else if x <? y then kCFCompareLessThan else kCFCompareGreaterThan
  end.

(** A host with no compatibility data beyond the fullwidth forms of ASCII and
    with two locales: [false] collates by code unit, [true] in the opposite
    order.  Names made of ASCII and fullwidth ASCII never reach its table. *)
Definition plain_host : Host :=
  {| CFLocale := bool; compat_decompose := fun c => c;
     collate := fun locale _ a b =>
       match locale with
       | Some true => code_unit_order b a
       | _ => code_unit_order a b
       end |}.

Definition EINVAL : Z := 22.
Definition ENOENT : Z := 2.
Definition FTS_LOGICAL : Z := 0x002.
Definition FTS_NOCHDIR : Z := 0x004.
Definition FTS_OPTIONMASK : Z := 0x0ff.

Record fts_world : Type := { last_errno : Z; open_descriptors : nat }.

Record fts_stream (Env : Type) : Type := {
  fts_compar : compar Env;
  fts_options : Z;
  fts_rfd : bool
}.

Arguments fts_compar {Env} f.
Arguments fts_options {Env} f.
Arguments fts_rfd {Env} f.

(** The argument checks and the resource use of the BSD [fts_open]: unknown
    option bits give EINVAL, a zero-length path gives ENOENT, and unless the
    walk is logical or FTS_NOCHDIR is set a descriptor on "." is kept in the
    stream; a logical walk has FTS_NOCHDIR set in the options the stream keeps.
    [needs_path] tells the two variants apart: the 4.4BSD code builds a stream
    over an empty root list, later revisions answer it with EINVAL.
    The roots are not looked at beyond their length: a root that cannot be
    reached does not make the call fail, it is reported when the stream is
    read.  The entries of the roots, their order and what the calls of [stat]
    leave in [errno] after a successful call are not part of the model, and no
    statement below reads them. *)
Definition bsd_fts_open (needs_path : bool) {Env : Type} (path : list cstring)
    (options : Z) (compar : compar Env) (w : fts_world)
    : option (fts_stream Env) * fts_world :=
  if negb (Z.land options (Z.lnot FTS_OPTIONMASK) =? 0)
  then (None, {| last_errno := EINVAL; open_descriptors := open_descriptors w |})
  else if needs_path && match path with [] => true | _ => false end
  then (None, {| last_errno := EINVAL; open_descriptors := open_descriptors w |})
  else if existsb (fun p => match p with [] => true | _ => false end) path
  then (None, {| last_errno := ENOENT; open_descriptors := open_descriptors w |})
  else
    let nochdir := has_flag options FTS_LOGICAL || has_flag options FTS_NOCHDIR in
    (Some {| fts_compar := compar;
             fts_options := if has_flag options FTS_LOGICAL
                            then Z.lor options FTS_NOCHDIR else options;
             fts_rfd := negb nochdir |},
     {| last_errno := last_errno w;
        open_descriptors := if nochdir then open_descriptors w
                            else S (open_descriptors w) |}).

Definition bsd_fts (needs_path : bool) (Env : Type) : FtsHost Env :=
  {| World := fts_world; FTS := fts_stream Env;
     errno := last_errno; descriptors := open_descriptors;
     fts_open := bsd_fts_open needs_path |}.

(** A C library whose [fts_open] gives up after it has opened a descriptor and
    does not close it. *)
Definition ENFILE : Z := 23.

Definition leaky_fts (Env : Type) : FtsHost Env :=
  {| World := fts_world; FTS := fts_stream Env;
     errno := last_errno; descriptors := open_descriptors;
     fts_open := fun _ _ _ w =>
       (None, {| last_errno := ENFILE;
                 open_descriptors := S (open_descriptors w) |}) |}.

(** Bytes of the names used below that are not ASCII. *)
Definition fullwidth_file1 : cstring :=
  [0xEF; 0xBD; 0x86; 0xEF; 0xBD; 0x89; 0xEF; 0xBD; 0x8C; 0xEF; 0xBD; 0x85;
   0xEF; 0xBC; 0x91].

Definition e_acute : cstring := [0xC3; 0xA9].

Definition not_utf8 : cstring := [0xFF].


(** ** Digit runs, for the statements below *)

(** The number a run of ASCII digits denotes. *)
Definition decimal_from (v : Z) (ds : list Z) : Z :=
  fold_left (fun acc c => acc * 10 + (c - 0x30)) ds v.

Definition decimal (ds : list Z) : Z := decimal_from 0 ds.

Definition starts_nondigit (t : list Z) : bool :=
  match t with
  | [] => true
  | c :: _ => negb (is_digit c)
  end.

(** A prefix after which a digit run starts afresh: it is empty or its last
    character is not a digit. *)
Definition no_trailing_digit (p : list Z) : Prop := is_digit (last p 0) = false.

Definition is_comparison_result (z : Z) : Prop :=
  z = kCFCompareLessThan \/ z = kCFCompareEqualTo \/ z = kCFCompareGreaterThan.

(** *** Sort keys of an ASCII name

    The loop reads an ASCII name as a sequence of items: a maximal digit run
    counts as one item, every other character as one item.  [keys] gives each
    item a number such that the loop's order of items is the order of the
    numbers: a character below '0' keeps its code, a digit run of value [v]
    (modulo 2^64) gets ['0' + v], a character above '9' is moved above all
    digit runs. *)
Definition key_char (c : Z) : Z := if c <? 0x30 then c else c + UINT64_MOD.

Definition key_run (run : option Z) : list Z :=
  match run with
  | Some v => [0x30 + v]
  | None => []
  end.

Fixpoint keys_from (run : option Z) (s : list Z) : list Z :=
  match s with
  | [] => key_run run
  | c :: t =>
    if is_digit c then
      keys_from (Some match run with
                      | None => c - 0x30
                      | Some v => (v * 10 + (c - 0x30)) mod UINT64_MOD
                      end) t
    else key_run run ++ key_char c :: keys_from None t
  end.

Definition keys (s : list Z) : list Z := keys_from None s.

(** Two calls that both return, and return the same value. *)
Definition same_result (o1 o2 : outcome Z) : Prop :=
  exists z, o1 = Returns z /\ o2 = Returns z.

(** The comparison loop run over the range [cmp] passes, when the memory after
    the units of [lhsString] holds the units [beyond]: what the published loop
    computes where the range is longer than the string and the contract defines
    nothing. *)
Definition loop_over_passed_range (host : Host) (lhs rhs : cstring)
    (beyond : list Z) : option Z :=
  match CFStringCreateWithCString NULL lhs kCFStringEncodingUTF8,
        CFStringCreateWithCString NULL rhs kCFStringEncodingUTF8 with
  | Some s1, Some s2 =>
    Some (compare_loop host true true
            (firstn (Z.to_nat (strlen lhs)) (s1 ++ beyond)) s2)
  | _, _ => None
  end.

(** *** Fullwidth forms, for the statements below

    The three bytes of a code point of U+0800..U+FFFF in UTF-8, and the
    fullwidth form of a printable ASCII character, U+FF01..U+FF5E. *)
Definition utf8_three (cp : Z) : cstring :=
  [Z.lor 0xE0 (Z.shiftr cp 12);
   Z.lor 0x80 (Z.land (Z.shiftr cp 6) 0x3F);
   Z.lor 0x80 (Z.land cp 0x3F)].

Definition fullwidth (c : Z) : cstring := utf8_three (c + 0xFEE0).

(** [width_variant a b]: the name [b] is the ASCII name [a] with some of its
    characters written in their fullwidth forms; a digit is never kept as it
    is. *)
Inductive width_variant : cstring -> cstring -> Prop :=
| wv_nil : width_variant [] []
| wv_keep (c : Z) (a b : cstring) :
    is_ascii c = true -> is_digit c = false ->
    width_variant a b -> width_variant (c :: a) (c :: b)
| wv_wide (c : Z) (a b : cstring) :
    0x21 <= c <= 0x7E ->
    width_variant a b -> width_variant (c :: a) (fullwidth c ++ b).

(** * Properties *)

(** Case analysis on the integer tests of a goal, closed by arithmetic. *)
Ltac decide_tests :=
  repeat match goal with
         | |- context [?a =? ?b] => destruct (Z.eqb_spec a b)
         | |- context [?a <? ?b] => destruct (Z.ltb_spec a b)
         | |- context [?a <=? ?b] => destruct (Z.leb_spec a b)
         | H : context [?a <? ?b] |- _ => destruct (Z.ltb_spec a b)
         end;
  try reflexivity; try lia.

(** ** Decoding *)

Lemma utf8_decode_ascii (s : cstring) :
  forallb is_ascii s = true -> utf8_decode s = Some s.
Proof.
  induction s as [|b t IH]; simpl; [reflexivity|].
  intros H; apply andb_prop in H as [Hb Ht].
  rewrite Hb, (IH Ht); reflexivity.
Qed.

Lemma utf16_encode_ascii (s : list Z) :
  forallb is_ascii s = true -> utf16_encode s = s.
Proof.
  induction s as [|b t IH]; simpl; [reflexivity|].
  intros H; apply andb_prop in H as [Hb Ht].
  unfold utf16_encode in *; simpl; rewrite (IH Ht).
  unfold utf16_units, is_ascii in *.
  replace (b <? 65536) with true; [reflexivity|].
  symmetry; apply Z.ltb_lt.
  apply andb_prop in Hb as [_ Hb]; apply Z.ltb_lt in Hb; lia.
Qed.

Lemma create_ascii (s : cstring) :
  forallb is_ascii s = true ->
  CFStringCreateWithCString NULL s kCFStringEncodingUTF8 = Some s.
Proof.
  intros H; unfold CFStringCreateWithCString; simpl.
  rewrite (utf8_decode_ascii s H); simpl; rewrite (utf16_encode_ascii s H); reflexivity.
Qed.

(** *** Bytes against code units

    A decoded name never has more UTF-16 code units than bytes, and has fewer as
    soon as one byte is not ASCII: two and three bytes give one unit, four bytes
    give two. *)

Lemma lor_bound (n a b : Z) :
  0 <= n -> 0 <= a < 2 ^ n -> 0 <= b < 2 ^ n -> 0 <= Z.lor a b < 2 ^ n.
Proof.
  intros Hn Ha Hb.
  assert (H0 : 0 <= Z.lor a b) by (apply Z.lor_nonneg; lia).
  split; [exact H0|].
  destruct (Z.eq_dec (Z.lor a b) 0) as [E|E]; [rewrite E; lia|].
  apply Z.log2_lt_pow2; [lia|].
  rewrite Z.log2_lor by lia.
  destruct (Z.eq_dec a 0) as [->|Na]; destruct (Z.eq_dec b 0) as [->|Nb].
  - exfalso; apply E; reflexivity.
  - rewrite Z.max_r by (apply Z.log2_nonneg). apply Z.log2_lt_pow2; lia.
  - rewrite Z.max_l by (apply Z.log2_nonneg). apply Z.log2_lt_pow2; lia.
  - apply Z.max_lub_lt; apply Z.log2_lt_pow2; lia.
Qed.

Lemma land_ones_bound (b n : Z) : 0 <= n -> 0 <= Z.land b (Z.ones n) < 2 ^ n.
Proof.
  intros Hn; rewrite Z.land_ones by lia. apply Z.mod_pos_bound; lia.
Qed.

Lemma cont_bits_bound (b : Z) : 0 <= cont_bits b < 64.
Proof. exact (land_ones_bound b 6 ltac:(lia)). Qed.

Lemma two_byte_bound (b0 b1 : Z) :
  0 <= Z.lor (Z.shiftl (Z.land b0 0x1F) 6) (cont_bits b1) < 0x10000.
Proof.
  pose proof (land_ones_bound b0 5 ltac:(lia)) as H0; change (Z.ones 5) with 0x1F in H0.
  pose proof (cont_bits_bound b1) as H1.
  assert (0 <= Z.lor (Z.shiftl (Z.land b0 0x1F) 6) (cont_bits b1) < 2 ^ 11); [|lia].
  apply lor_bound; [lia| |lia].
  rewrite Z.shiftl_mul_pow2 by lia; change (2 ^ 5) with 32 in H0; lia.
Qed.

Lemma three_byte_bound (b0 b1 b2 : Z) :
  0 <= Z.lor (Z.shiftl (Z.land b0 0x0F) 12)
             (Z.lor (Z.shiftl (cont_bits b1) 6) (cont_bits b2)) < 0x10000.
Proof.
  pose proof (land_ones_bound b0 4 ltac:(lia)) as H0; change (Z.ones 4) with 0x0F in H0.
  pose proof (cont_bits_bound b1) as H1.
  pose proof (cont_bits_bound b2) as H2.
  change 0x10000 with (2 ^ 16).
  apply lor_bound; [lia| |].
  - rewrite Z.shiftl_mul_pow2 by lia; change (2 ^ 4) with 16 in H0; lia.
  - assert (0 <= Z.lor (Z.shiftl (cont_bits b1) 6) (cont_bits b2) < 2 ^ 12); [|lia].
    apply lor_bound; [lia| |lia].
    rewrite Z.shiftl_mul_pow2 by lia; lia.
Qed.

Lemma utf16_units_length (cp : Z) : (1 <= List.length (utf16_units cp) <= 2)%nat.
Proof.
  unfold utf16_units; destruct (cp <? 0x10000); simpl; lia.
Qed.

Lemma utf16_units_bmp (cp : Z) : cp < 0x10000 -> utf16_units cp = [cp].
Proof.
  intros H; unfold utf16_units.
  replace (cp <? 0x10000) with true by (symmetry; apply Z.ltb_lt; exact H).
  reflexivity.
Qed.

Lemma utf16_encode_cons (cp : Z) (cps : list Z) :
  utf16_encode (cp :: cps) = utf16_units cp ++ utf16_encode cps.
Proof. reflexivity. Qed.

Lemma decoded_units_bound (n : nat) :
  forall (s : cstring) (cps : list Z),
    (List.length s <= n)%nat ->
    utf8_decode s = Some cps ->
    (List.length (utf16_encode cps) <= List.length s)%nat /\
    (forallb is_ascii s = false ->
     (List.length (utf16_encode cps) < List.length s)%nat).
Proof.
  induction n as [|n IH]; intros s cps Hn Hd.
  - destruct s; [|simpl in Hn; lia].
    simpl in Hd; injection Hd as <-; simpl; split; [lia|discriminate].
  - destruct s as [|b0 t0].
    { simpl in Hd; injection Hd as <-; simpl; split; [lia|discriminate]. }
    simpl in Hd, Hn.
    destruct (is_ascii b0) eqn:A0.
    { destruct (utf8_decode t0) as [c0|] eqn:D0; [|discriminate].
      simpl in Hd; injection Hd as <-.
      destruct (IH t0 c0 ltac:(lia) D0) as [L1 L2].
      rewrite utf16_encode_cons, utf16_units_bmp
        by (apply andb_prop in A0 as [_ A0]; apply Z.ltb_lt in A0; lia).
      simpl; rewrite A0; simpl; split; [lia|].
      intros H; specialize (L2 H); lia. }
    assert (NA : forallb is_ascii (b0 :: t0) = false) by (simpl; rewrite A0; reflexivity).
    rewrite NA.
    destruct ((0xC2 <=? b0) && (b0 <=? 0xDF)).
    { destruct t0 as [|b1 t1]; [discriminate|].
      destruct (is_cont b1); [|discriminate].
      destruct (utf8_decode t1) as [c1|] eqn:D1; [|discriminate].
      simpl in Hd; injection Hd as <-. simpl in Hn.
      destruct (IH t1 c1 ltac:(lia) D1) as [L1 _].
      rewrite utf16_encode_cons, utf16_units_bmp by apply two_byte_bound.
      simpl; split; [lia|intros _; lia]. }
    destruct ((0xE0 <=? b0) && (b0 <=? 0xEF)).
    { destruct t0 as [|b1 [|b2 t2]]; try discriminate.
      cbv zeta in Hd.
      match type of Hd with (if ?c then _ else _) = _ => destruct c end; [|discriminate].
      destruct (utf8_decode t2) as [c2|] eqn:D2; [|discriminate].
      simpl in Hd; injection Hd as <-. simpl in Hn.
      destruct (IH t2 c2 ltac:(lia) D2) as [L1 _].
      rewrite utf16_encode_cons, utf16_units_bmp by apply three_byte_bound.
      simpl; split; [lia|intros _; lia]. }
    destruct ((0xF0 <=? b0) && (b0 <=? 0xF4)); [|discriminate].
    destruct t0 as [|b1 [|b2 [|b3 t3]]]; try discriminate.
    cbv zeta in Hd.
    match type of Hd with (if ?c then _ else _) = _ => destruct c end; [|discriminate].
    destruct (utf8_decode t3) as [c3|] eqn:D3; [|discriminate].
    simpl in Hd; injection Hd as <-. simpl in Hn.
    destruct (IH t3 c3 ltac:(lia) D3) as [L1 _].
    rewrite utf16_encode_cons, length_app.
    match goal with
    | |- context [utf16_units ?cp] => pose proof (utf16_units_length cp) as U
    end.
    cbn [List.length]; split; [lia|intros _; lia].
Qed.

(** ** The order by code unit *)

Lemma code_unit_order_refl (a : list Z) : code_unit_order a a = 0.
Proof.
  induction a as [|x a IH]; [reflexivity|].
  cbn [code_unit_order]; rewrite Z.eqb_refl; exact IH.
Qed.

Lemma code_unit_order_eq (a : list Z) :
  forall b, code_unit_order a b = 0 -> a = b.
Proof.
  induction a as [|x a IH]; intros [|y b]; cbn [code_unit_order];
    unfold kCFCompareLessThan, kCFCompareGreaterThan, kCFCompareEqualTo;
    try reflexivity; try lia.
  destruct (Z.eqb_spec x y) as [->|N].
  - intros H; f_equal; apply IH, H.
  - destruct (x <? y); lia.
Qed.

Lemma code_unit_order_opp (a : list Z) :
  forall b, code_unit_order b a = - code_unit_order a b.
Proof.
  induction a as [|x a IH]; intros [|y b]; cbn [code_unit_order]; try reflexivity.
  destruct (Z.eqb_spec x y) as [->|N].
  - rewrite Z.eqb_refl; apply IH.
  - unfold kCFCompareLessThan, kCFCompareGreaterThan; decide_tests.
Qed.

Lemma code_unit_order_trans (a : list Z) :
  forall b c, code_unit_order a b = -1 -> code_unit_order b c = -1 ->
              code_unit_order a c = -1.
Proof.
  induction a as [|x a IH]; intros [|y b] [|z c]; cbn [code_unit_order];
    unfold kCFCompareLessThan, kCFCompareGreaterThan, kCFCompareEqualTo;
    try reflexivity; try lia.
  destruct (Z.eqb_spec x y) as [->|Nxy]; destruct (Z.eqb_spec y z) as [->|Nyz].
  - rewrite ?Z.eqb_refl; apply IH.
  - intros _ H; destruct (Z.ltb_spec y z); decide_tests.
  - intros H _; destruct (Z.ltb_spec x z); decide_tests.
  - intros H1 H2; destruct (Z.ltb_spec x y); destruct (Z.ltb_spec y z); decide_tests.
Qed.

Section Facts.

Context (host : Host).

(** ** What [cmp] computes

    The body of [cmp] with the host calls unfolded: NULL when a name does not
    decode, a range that is as long as the left name has bytes, and otherwise
    the comparison loop with both modes on. *)
Lemma cmp_unfold (current : CFLocale host) (l r : FTSENT) :
  cmp host current l r =
  match CFStringCreateWithCString NULL (fts_name l) kCFStringEncodingUTF8,
        CFStringCreateWithCString NULL (fts_name r) kCFStringEncodingUTF8 with
  | Some s1, Some s2 =>
    if strlen (fts_name l) <=? CFStringGetLength s1
    then Returns (to_int (compare_loop host true true
                            (firstn (List.length (fts_name l)) s1) s2))
    else Undefined RangeBeyondString
  | _, _ => Undefined NullStringRef
  end.
Proof.
  unfold cmp.
  destruct (CFStringCreateWithCString NULL (fts_name l) kCFStringEncodingUTF8) as [s1|];
    [|reflexivity].
  destruct (CFStringCreateWithCString NULL (fts_name r) kCFStringEncodingUTF8) as [s2|];
    [|reflexivity].
  unfold CFStringCompareWithOptionsAndLocale, range_in_string, substring, CFRangeMake.
  cbn [location length].
  replace (0 <=? 0) with true by reflexivity.
  replace (0 <=? strlen (fts_name l)) with true
    by (symmetry; apply Z.leb_le; unfold strlen; lia).
  cbn [andb]. rewrite Z.add_0_l.
  destruct (strlen (fts_name l) <=? CFStringGetLength s1); [|reflexivity].
  unfold strlen; rewrite Nat2Z.id.
  reflexivity.
Qed.

(** ** The loop returns a comparison result *)

Lemma less_or_greater_result (a b : Z) : is_comparison_result (less_or_greater a b).
Proof.
  unfold less_or_greater, is_comparison_result; destruct (a <? b); auto.
Qed.

Lemma compare_loop_result (numerically width : bool) (s1 s2 : CFString) :
  is_comparison_result (compare_loop host numerically width s1 s2).
Proof.
  funelim (compare_loop host numerically width s1 s2); simp compare_loop.
  - right; left; reflexivity.
  - left; reflexivity.
  - right; right; reflexivity.
  - repeat match goal with
           | |- context [if ?b then _ else _] => destruct b eqn:?
           end; auto using less_or_greater_result.
Qed.

Lemma to_int_result (z : Z) : is_comparison_result z -> to_int z = z.
Proof.
  intros [-> | [-> | ->]]; reflexivity.
Qed.

(** ** Digit runs in the loop *)

Lemma decimal_from_shift (ds : list Z) (v : Z) :
  decimal_from v ds = v * 10 ^ Z.of_nat (List.length ds) + decimal ds.
Proof.
  unfold decimal; revert v; induction ds as [|d ds IH]; intros v.
  - simpl; lia.
  - cbn [decimal_from fold_left List.length].
    fold (decimal_from (v * 10 + (d - 48)) ds); fold (decimal_from (0 * 10 + (d - 48)) ds).
    rewrite (IH (v * 10 + (d - 48))), (IH (0 * 10 + (d - 48))).
    rewrite Nat2Z.inj_succ, Z.pow_succ_r by lia. ring.
Qed.

Lemma decimal_from_mod (ds : list Z) (v : Z) :
  decimal_from (v mod UINT64_MOD) ds mod UINT64_MOD = decimal_from v ds mod UINT64_MOD.
Proof.
  rewrite !decimal_from_shift.
  rewrite Z.add_mod, Z.mul_mod_idemp_l, <- Z.add_mod by (unfold UINT64_MOD; lia).
  reflexivity.
Qed.

(** Scanning a run of digits that ends before [t]: the accumulator holds the
    number read so far modulo 2^64. *)
Lemma scan_digits_run (ds t : list Z) (v : Z) :
  forallb is_digit ds = true -> starts_nondigit t = true ->
  0 <= v < UINT64_MOD ->
  scan_digits v (ds ++ t) = (decimal_from v ds mod UINT64_MOD, t).
Proof.
  intros Hds Ht; revert v; induction ds as [|d ds IH]; intros v Hv.
  - cbn [app decimal_from fold_left]. rewrite Z.mod_small by exact Hv.
    destruct t as [|c t]; [reflexivity|].
    simpl in Ht; apply negb_true_iff in Ht; simpl; rewrite Ht; reflexivity.
  - simpl in Hds; apply andb_prop in Hds as [Hd Hds].
    cbn [app scan_digits]; rewrite Hd.
    rewrite (IH Hds) by (apply Z.mod_pos_bound; unfold UINT64_MOD; lia).
    rewrite decimal_from_mod; reflexivity.
Qed.

Lemma digit_value_bound (c : Z) : is_digit c = true -> 0 <= c - 0x30 < UINT64_MOD.
Proof.
  unfold is_digit, UINT64_MOD; intros H; apply andb_prop in H as [H1 H2].
  apply Z.leb_le in H1, H2; lia.
Qed.

Lemma run_value_run (c : Z) (ds t : list Z) :
  is_digit c = true -> forallb is_digit ds = true -> starts_nondigit t = true ->
  run_value c (ds ++ t) = decimal (c :: ds) mod UINT64_MOD /\
  after_run c (ds ++ t) = t.
Proof.
  intros Hc Hds Ht; unfold run_value, after_run.
  rewrite (scan_digits_run ds t _ Hds Ht (digit_value_bound c Hc)); split; reflexivity.
Qed.

Lemma no_trailing_digit_tail (c : Z) (q : list Z) :
  q <> [] -> no_trailing_digit (c :: q) -> no_trailing_digit q.
Proof.
  unfold no_trailing_digit; destruct q; [congruence|intros _ H; exact H].
Qed.

(** A digit run inside a prefix that does not end in a digit stops inside the
    prefix, whatever follows the prefix. *)
Lemma scan_digits_in_prefix (q : list Z) :
  forall v, q <> [] -> no_trailing_digit q ->
  exists w q', q' <> [] /\ no_trailing_digit q' /\
               (List.length q' <= List.length q)%nat /\
               forall x, scan_digits v (q ++ x) = (w, q' ++ x).
Proof.
  induction q as [|c q IH]; intros v Hq Hl; [congruence|].
  destruct (is_digit c) eqn:Hc.
  - assert (Hne : q <> []).
    { intros ->; unfold no_trailing_digit in Hl; simpl in Hl; congruence. }
    destruct (IH ((v * 10 + (c - 0x30)) mod UINT64_MOD) Hne
                 (no_trailing_digit_tail c q Hne Hl)) as (w & q' & N & L & Len & E).
    exists w, q'; repeat split; [exact N|exact L|simpl; lia|].
    intros x; cbn [app scan_digits]; rewrite Hc; apply E.
  - exists v, (c :: q); repeat split; [congruence|exact Hl|lia|].
    intros x; cbn [app scan_digits]; rewrite Hc; reflexivity.
Qed.

(** Equal prefixes are skipped. *)
Lemma compare_loop_common_prefix (width : bool) (n : nat) :
  forall p x y, (List.length p <= n)%nat -> no_trailing_digit p ->
  compare_loop host true width (p ++ x) (p ++ y) = compare_loop host true width x y.
Proof.
  induction n as [|n IH]; intros p x y Hn Hp.
  - destruct p; [reflexivity|simpl in Hn; lia].
  - destruct p as [|c q]; [reflexivity|].
    cbn [app]; simp compare_loop.
    destruct (is_digit c) eqn:Hc; cbn [andb].
    + assert (Hne : q <> []).
      { intros ->; unfold no_trailing_digit in Hp; simpl in Hp; congruence. }
      destruct (scan_digits_in_prefix q (c - 0x30) Hne
                  (no_trailing_digit_tail c q Hne Hp)) as (w & q' & N & L & Len & E).
      unfold run_value, after_run; rewrite !E; cbn [fst snd].
      rewrite Z.eqb_refl. apply IH; [simpl in Hn; lia|exact L].
    + rewrite Z.eqb_refl.
      destruct q as [|c' q']; [reflexivity|].
      apply IH; [simpl in Hn; simpl; lia|].
      exact (no_trailing_digit_tail c (c' :: q') ltac:(congruence) Hp).
Qed.

(** Two digit runs at the same place: different residues modulo 2^64 decide,
    equal residues leave the decision to what follows the runs. *)
Lemma compare_loop_digit_runs (width : bool) (p d1 d2 t1 t2 : list Z) :
  no_trailing_digit p ->
  d1 <> [] -> d2 <> [] ->
  forallb is_digit d1 = true -> forallb is_digit d2 = true ->
  starts_nondigit t1 = true -> starts_nondigit t2 = true ->
  compare_loop host true width (p ++ d1 ++ t1) (p ++ d2 ++ t2) =
  if decimal d1 mod UINT64_MOD =? decimal d2 mod UINT64_MOD
  then compare_loop host true width t1 t2
  else less_or_greater (decimal d1 mod UINT64_MOD) (decimal d2 mod UINT64_MOD).
Proof.
  intros Hp N1 N2 D1 D2 T1 T2.
  rewrite (compare_loop_common_prefix width (List.length p)) by (auto; lia).
  destruct d1 as [|c1 ds1]; [congruence|]; destruct d2 as [|c2 ds2]; [congruence|].
  cbn [forallb] in D1, D2.
  apply andb_prop in D1 as [C1 D1]; apply andb_prop in D2 as [C2 D2].
  cbn [app]; simp compare_loop; rewrite C1, C2; cbn [andb].
  destruct (run_value_run c1 ds1 t1 C1 D1 T1) as [-> ->].
  destruct (run_value_run c2 ds2 t2 C2 D2 T2) as [-> ->].
  reflexivity.
Qed.

(** ** The loop on ASCII strings

    On ASCII strings the loop is the order of the sort keys by code unit; it
    inherits reflexivity, antisymmetry and transitivity from that order. *)

Lemma is_digit_true (c : Z) : is_digit c = true -> 0x30 <= c <= 0x39.
Proof.
  unfold is_digit; intros H; apply andb_prop in H as [H1 H2].
  apply Z.leb_le in H1, H2; lia.
Qed.

Lemma is_digit_false (c : Z) : is_digit c = false -> c < 0x30 \/ 0x39 < c.
Proof.
  unfold is_digit; intros H; apply andb_false_iff in H as [H|H];
    apply Z.leb_gt in H; lia.
Qed.

Lemma keys_from_run (s : list Z) (v : Z) :
  keys_from (Some v) s = (0x30 + fst (scan_digits v s)) :: keys (snd (scan_digits v s)).
Proof.
  unfold keys; revert v; induction s as [|c t IH]; intros v; [reflexivity|].
  cbn [keys_from scan_digits]; destruct (is_digit c) eqn:Hc.
  - apply IH.
  - cbn [fst snd keys_from key_run app]; rewrite Hc; reflexivity.
Qed.

Lemma keys_digit (c : Z) (t : list Z) :
  is_digit c = true -> keys (c :: t) = (0x30 + run_value c t) :: keys (after_run c t).
Proof.
  intros Hc; unfold keys at 1; cbn [keys_from]; rewrite Hc.
  apply keys_from_run.
Qed.

Lemma keys_nondigit (c : Z) (t : list Z) :
  is_digit c = false -> keys (c :: t) = key_char c :: keys t.
Proof.
  intros Hc; unfold keys; cbn [keys_from]; rewrite Hc; reflexivity.
Qed.

Lemma scan_digits_bound (s : list Z) (v : Z) :
  0 <= v < UINT64_MOD -> 0 <= fst (scan_digits v s) < UINT64_MOD.
Proof.
  revert v; induction s as [|c t IH]; intros v Hv; [exact Hv|].
  cbn [scan_digits]; destruct (is_digit c); [|exact Hv].
  apply IH, Z.mod_pos_bound; unfold UINT64_MOD; lia.
Qed.

Lemma run_value_bound (c : Z) (t : list Z) :
  is_digit c = true -> 0 <= run_value c t < UINT64_MOD.
Proof.
  intros Hc; apply scan_digits_bound, digit_value_bound, Hc.
Qed.

Lemma scan_digits_ascii (s : list Z) (v : Z) :
  forallb is_ascii s = true -> forallb is_ascii (snd (scan_digits v s)) = true.
Proof.
  revert v; induction s as [|c t IH]; intros v H; [reflexivity|].
  cbn [scan_digits]; destruct (is_digit c); [|exact H].
  cbn [forallb] in H; apply andb_prop in H as [_ H]; apply IH, H.
Qed.

Lemma ascii_unfolded (c : Z) (t : list Z) :
  is_ascii c = true -> folded host c t = c /\ after_character c t = t.
Proof.
  intros Hc; unfold is_ascii in Hc; apply andb_prop in Hc as [H0 H1].
  apply Z.leb_le in H0; apply Z.ltb_lt in H1.
  unfold folded, after_character, long_character, fold_width.
  assert (S : is_high_surrogate c = false).
  { unfold is_high_surrogate; apply andb_false_iff; left; apply Z.leb_gt; lia. }
  destruct t as [|c' t']; rewrite ?S; cbn [andb fst snd];
    (replace (0xFF01 <=? c) with false by (symmetry; apply Z.leb_gt; lia));
    (replace (0xFF00 <=? c) with false by (symmetry; apply Z.leb_gt; lia));
    cbn [andb]; split; reflexivity.
Qed.

Lemma compare_loop_keys (n : nat) :
  forall s1 s2, (List.length s1 <= n)%nat ->
  forallb is_ascii s1 = true -> forallb is_ascii s2 = true ->
  compare_loop host true true s1 s2 = code_unit_order (keys s1) (keys s2).
Proof.
  induction n as [|n IH]; intros s1 s2 Hn A1 A2.
  - destruct s1; [|simpl in Hn; lia].
    destruct s2 as [|c2 t2]; simp compare_loop; [reflexivity|].
    destruct (is_digit c2) eqn:D2;
      [rewrite (keys_digit c2 t2 D2)|rewrite (keys_nondigit c2 t2 D2)]; reflexivity.
  - destruct s1 as [|c1 t1].
    { destruct s2 as [|c2 t2]; simp compare_loop; [reflexivity|].
      destruct (is_digit c2) eqn:D2;
        [rewrite (keys_digit c2 t2 D2)|rewrite (keys_nondigit c2 t2 D2)]; reflexivity. }
    destruct s2 as [|c2 t2].
    { simp compare_loop.
      destruct (is_digit c1) eqn:D1;
        [rewrite (keys_digit c1 t1 D1)|rewrite (keys_nondigit c1 t1 D1)]; reflexivity. }
    cbn [forallb] in A1, A2.
    apply andb_prop in A1 as [C1 A1]; apply andb_prop in A2 as [C2 A2].
    cbn [List.length] in Hn.
    simp compare_loop.
    destruct (ascii_unfolded c1 t1 C1) as [F1 R1].
    destruct (ascii_unfolded c2 t2 C2) as [F2 R2].
    rewrite F1, F2, R1, R2; cbn [negb andb].
    destruct (is_digit c1) eqn:D1; destruct (is_digit c2) eqn:D2; cbn [andb].
    + rewrite (keys_digit c1 t1 D1), (keys_digit c2 t2 D2); cbn [code_unit_order].
      pose proof (run_value_bound c1 t1 D1) as B1.
      pose proof (run_value_bound c2 t2 D2) as B2.
      destruct (Z.eqb_spec (run_value c1 t1) (run_value c2 t2)) as [E|E].
      * rewrite E, Z.eqb_refl.
        apply IH.
        -- pose proof (scan_digits_length (c1 - 0x30) t1); unfold after_run; lia.
        -- apply scan_digits_ascii, A1.
        -- apply scan_digits_ascii, A2.
      * unfold less_or_greater; decide_tests.
    + rewrite (keys_digit c1 t1 D1), (keys_nondigit c2 t2 D2); cbn [code_unit_order].
      pose proof (run_value_bound c1 t1 D1) as B1.
      apply is_digit_true in D1; apply is_digit_false in D2.
      unfold less_or_greater, key_char, UINT64_MOD in *; decide_tests.
    + rewrite (keys_nondigit c1 t1 D1), (keys_digit c2 t2 D2); cbn [code_unit_order].
      pose proof (run_value_bound c2 t2 D2) as B2.
      apply is_digit_false in D1; apply is_digit_true in D2.
      unfold less_or_greater, key_char, UINT64_MOD in *; decide_tests.
    + rewrite (keys_nondigit c1 t1 D1), (keys_nondigit c2 t2 D2); cbn [code_unit_order].
      destruct (Z.eqb_spec c1 c2) as [E|E].
      * subst c2; rewrite Z.eqb_refl.
        apply IH; [lia|exact A1|exact A2].
      * apply is_digit_false in D1; apply is_digit_false in D2.
        unfold less_or_greater, key_char, UINT64_MOD; decide_tests.
Qed.

(** With an ASCII left name and a right name that decodes, [cmp] is the loop. *)
Lemma cmp_ascii_left (current : CFLocale host) (l r : FTSENT) (s2 : CFString) :
  forallb is_ascii (fts_name l) = true ->
  CFStringCreateWithCString NULL (fts_name r) kCFStringEncodingUTF8 = Some s2 ->
  cmp host current l r = Returns (compare_loop host true true (fts_name l) s2).
Proof.
  intros Hl Hr.
  rewrite cmp_unfold, (create_ascii _ Hl), Hr.
  unfold strlen, CFStringGetLength; rewrite Z.leb_refl, firstn_all.
  rewrite to_int_result by apply compare_loop_result; reflexivity.
Qed.

(** With ASCII names on both sides [cmp] is the order of the sort keys. *)
Lemma cmp_ascii_keys (current : CFLocale host) (l r : FTSENT) :
  forallb is_ascii (fts_name l) = true -> forallb is_ascii (fts_name r) = true ->
  cmp host current l r = Returns (code_unit_order (keys (fts_name l)) (keys (fts_name r))).
Proof.
  intros Al Ar.
  rewrite (cmp_ascii_left current l r (fts_name r) Al (create_ascii _ Ar)).
  rewrite (compare_loop_keys (List.length (fts_name l))) by auto.
  reflexivity.
Qed.

Lemma forallb_app_r {A : Type} (f : A -> bool) (a b : list A) :
  forallb f (a ++ b) = true -> forallb f b = true.
Proof. rewrite forallb_app; intros H; apply andb_prop in H as [_ H]; exact H. Qed.

(** ASCII names that agree up to a digit run each. *)
Lemma cmp_digit_runs (current : CFLocale host) (l r : FTSENT)
    (p d1 d2 t1 t2 : cstring) :
  fts_name l = p ++ d1 ++ t1 -> fts_name r = p ++ d2 ++ t2 ->
  forallb is_ascii (fts_name l) = true -> forallb is_ascii (fts_name r) = true ->
  no_trailing_digit p ->
  d1 <> [] -> d2 <> [] ->
  forallb is_digit d1 = true -> forallb is_digit d2 = true ->
  starts_nondigit t1 = true -> starts_nondigit t2 = true ->
  cmp host current l r =
  if decimal d1 mod UINT64_MOD =? decimal d2 mod UINT64_MOD
  then cmp host current (entry t1) (entry t2)
  else Returns (less_or_greater (decimal d1 mod UINT64_MOD) (decimal d2 mod UINT64_MOD)).
Proof.
  intros El Er Al Ar Hp N1 N2 D1 D2 T1 T2.
  rewrite (cmp_ascii_left current l r (fts_name r) Al (create_ascii _ Ar)).
  rewrite El, Er, (compare_loop_digit_runs true p d1 d2 t1 t2) by assumption.
  destruct (decimal d1 mod UINT64_MOD =? decimal d2 mod UINT64_MOD); [|reflexivity].
  rewrite El in Al; rewrite Er in Ar.
  apply forallb_app_r, forallb_app_r in Al; apply forallb_app_r, forallb_app_r in Ar.
  symmetry; apply (cmp_ascii_left current (entry t1) (entry t2) t2 Al (create_ascii _ Ar)).
Qed.

(** A name that is not UTF-8 gives a NULL reference, which is compared as it is. *)
Lemma cmp_undecodable (current : CFLocale host) (l r : FTSENT) :
  utf8_decode (fts_name l) = None \/ utf8_decode (fts_name r) = None ->
  cmp host current l r = Undefined NullStringRef.
Proof.
  intros H; rewrite cmp_unfold; unfold CFStringCreateWithCString.
  rewrite Z.eqb_refl.
  destruct H as [-> | ->]; [reflexivity|].
  destruct (option_map utf16_encode (utf8_decode (fts_name l))); reflexivity.
Qed.

(** A left name with a byte outside ASCII has more bytes than code units: the
    range built from [strlen] reaches past the string. *)
Lemma cmp_range_overrun (current : CFLocale host) (l r : FTSENT) (c1 c2 : list Z) :
  utf8_decode (fts_name l) = Some c1 -> utf8_decode (fts_name r) = Some c2 ->
  forallb is_ascii (fts_name l) = false ->
  cmp host current l r = Undefined RangeBeyondString.
Proof.
  intros H1 H2 NA; rewrite cmp_unfold; unfold CFStringCreateWithCString.
  rewrite Z.eqb_refl, H1, H2; cbn [option_map].
  destruct (decoded_units_bound _ _ _ (Nat.le_refl _) H1) as [_ L].
  specialize (L NA).
  replace (strlen (fts_name l) <=? CFStringGetLength (utf16_encode c1)) with false;
    [reflexivity|].
  symmetry; apply Z.leb_gt; unfold strlen, CFStringGetLength; lia.
Qed.

(** The current locale of the process is not consulted: the flags of [cmp] do
    not include [kCFCompareLocalized] and the locale argument is NULL. *)
Lemma cmp_current_locale (current current' : CFLocale host) (l r : FTSENT) :
  cmp host current l r = cmp host current' l r.
Proof. rewrite !cmp_unfold; reflexivity. Qed.

End Facts.

(** * The claims *)

(** ** The traversal opener *)

(** C1.  [fts_cmp_open] is [fts_open] over the same roots and with the same
    options, with [cmp] as the sibling-ordering callback: for every C library,
    every root list, every options value and every state of the world the two
    calls return the same stream (or NULL) and leave the same world. *)
Theorem fts_cmp_open_is_fts_open_with_cmp (host : Host) (os : FtsHost (CFLocale host))
    (path : list cstring) (options : Z) (w : World os) :
  fts_cmp_open host os path options w = fts_open os path options (cmp host) w.
Proof. reflexivity. Qed.

(** C6, as amended.  [fts_cmp_open] checks nothing itself: with an empty root
    list it returns what [fts_open] returns for an empty root list.  On a C
    library whose [fts_open] wants at least one path the call fails with EINVAL
    and the descriptors are as before, for every options value. *)
Theorem fts_cmp_open_empty_roots (host : Host) :
  (forall (os : FtsHost (CFLocale host)) (options : Z) (w : World os),
     fts_cmp_open host os [] options w = fts_open os [] options (cmp host) w) /\
  (forall (options : Z) (w : fts_world),
     fts_cmp_open host (bsd_fts true _) [] options w =
     (None, {| last_errno := EINVAL; open_descriptors := open_descriptors w |})).
Proof.
  split; [reflexivity|].
  intros options w; unfold fts_cmp_open; cbn [fts_open bsd_fts]; unfold bsd_fts_open.
  destruct (negb (Z.land options (Z.lnot FTS_OPTIONMASK) =? 0)); reflexivity.
Qed.

(** C6, as stated, fails: on the 4.4BSD [fts_open], which builds a stream over
    an empty root list, [fts_cmp_open] returns a stream for an empty root list
    and a descriptor has been opened. *)
Lemma fts_cmp_open_empty_roots_accepted :
  exists sp w',
    fts_cmp_open plain_host (bsd_fts false _) [] 0
                 {| last_errno := 0; open_descriptors := 0 |} = (Some sp, w') /\
    open_descriptors w' = 1%nat.
Proof. eexists; eexists; split; reflexivity. Qed.

(** C7, as amended.  [fts_cmp_open] fails exactly when [fts_open] fails, and
    the world it leaves, [errno] and descriptors, is the world [fts_open] left:
    it opens and closes nothing itself.  On the BSD [fts_open] a failure is a
    failed argument check, with EINVAL or ENOENT and the descriptors as they
    were. *)
Theorem fts_cmp_open_fails_as_fts_open (host : Host) :
  (forall (os : FtsHost (CFLocale host)) (path : list cstring) (options : Z)
          (w : World os),
     (fst (fts_cmp_open host os path options w) = None <->
      fst (fts_open os path options (cmp host) w) = None) /\
     snd (fts_cmp_open host os path options w)
     = snd (fts_open os path options (cmp host) w)) /\
  (forall (needs_path : bool) (path : list cstring) (options : Z) (w w' : fts_world),
     fts_cmp_open host (bsd_fts needs_path _) path options w = (None, w') ->
     open_descriptors w' = open_descriptors w /\
     (last_errno w' = EINVAL \/ last_errno w' = ENOENT)).
Proof.
  split.
  - intros os path options w; split; [split; intros H; exact H|reflexivity].
  - intros needs_path path options w w'.
    unfold fts_cmp_open; cbn [fts_open bsd_fts]; unfold bsd_fts_open.
    destruct (negb (Z.land options (Z.lnot FTS_OPTIONMASK) =? 0)).
    { intros H; injection H as <-; cbn; auto. }
    destruct (needs_path && match path with [] => true | _ => false end).
    { intros H; injection H as <-; cbn; auto. }
    destruct (existsb (fun p => match p with [] => true | _ => false end) path).
    { intros H; injection H as <-; cbn; auto. }
    discriminate.
Qed.

Lemma fts_cmp_open_fails_as_fts_open_witness :
  open_descriptors
    (snd (fts_cmp_open plain_host (bsd_fts false _) [c_str ""] 0
            {| last_errno := 0; open_descriptors := 3 |})) = 3%nat /\
  (last_errno
     (snd (fts_cmp_open plain_host (bsd_fts false _) [c_str ""] 0
             {| last_errno := 0; open_descriptors := 3 |})) = EINVAL \/
   last_errno
     (snd (fts_cmp_open plain_host (bsd_fts false _) [c_str ""] 0
             {| last_errno := 0; open_descriptors := 3 |})) = ENOENT).
Proof.
  exact (proj2 (fts_cmp_open_fails_as_fts_open plain_host) false [c_str ""] 0
           {| last_errno := 0; open_descriptors := 3 |}
           {| last_errno := ENOENT; open_descriptors := 3 |} eq_refl).
Defined.

(** C7, as stated, fails.  A root that does not exist does not make the BSD
    [fts_open] fail, so [fts_cmp_open] returns a stream for it; and on a C
    library whose failing [fts_open] keeps a descriptor, [fts_cmp_open] returns
    NULL with that descriptor held. *)
Lemma fts_cmp_open_failure_is_the_hosts :
  (exists sp w',
     fts_cmp_open plain_host (bsd_fts false _) [c_str "/does/not/exist"] 0
                  {| last_errno := 0; open_descriptors := 3 |} = (Some sp, w')) /\
  fst (fts_cmp_open plain_host (leaky_fts _) [c_str "/"] 0
         {| last_errno := 0; open_descriptors := 3 |}) = None /\
  open_descriptors
    (snd (fts_cmp_open plain_host (leaky_fts _) [c_str "/"] 0
            {| last_errno := 0; open_descriptors := 3 |})) = 4%nat.
Proof.
  split; [eexists; eexists; reflexivity|split; reflexivity].
Qed.

(** ** The comparator *)

(** C2, as amended.  [cmp] puts "file2" before "file10", and ASCII names that agree up to a
    digit run each are ordered by the numbers the runs denote, when these fit a
    64-bit unsigned integer: the smaller number first, and equal numbers (which
    may differ in leading zeros) leave the decision to what follows the runs. *)
Theorem cmp_numeric_aware (host : Host) (current : CFLocale host) :
  cmp host current (entry (c_str "file2")) (entry (c_str "file10")) = Returns (-1) /\
  forall (l r : FTSENT) (p d1 d2 t1 t2 : cstring),
    fts_name l = p ++ d1 ++ t1 -> fts_name r = p ++ d2 ++ t2 ->
    forallb is_ascii (fts_name l) = true -> forallb is_ascii (fts_name r) = true ->
    no_trailing_digit p ->
    d1 <> [] -> d2 <> [] ->
    forallb is_digit d1 = true -> forallb is_digit d2 = true ->
    starts_nondigit t1 = true -> starts_nondigit t2 = true ->
    0 <= decimal d1 < UINT64_MOD -> 0 <= decimal d2 < UINT64_MOD ->
    (decimal d1 < decimal d2 -> cmp host current l r = Returns (-1)) /\
    (decimal d2 < decimal d1 -> cmp host current l r = Returns 1) /\
    (decimal d1 = decimal d2 ->
     cmp host current l r = cmp host current (entry t1) (entry t2)).
Proof.
  split; [vm_compute; reflexivity|].
  intros l r p d1 d2 t1 t2 El Er Al Ar Hp N1 N2 D1 D2 T1 T2 B1 B2.
  rewrite (cmp_digit_runs host current l r p d1 d2 t1 t2) by assumption.
  rewrite !Z.mod_small by assumption.
  unfold less_or_greater, kCFCompareLessThan, kCFCompareGreaterThan.
  repeat split; intros H.
  - replace (decimal d1 =? decimal d2) with false by (symmetry; apply Z.eqb_neq; lia).
    replace (decimal d1 <? decimal d2) with true by (symmetry; apply Z.ltb_lt; lia).
    reflexivity.
  - replace (decimal d1 =? decimal d2) with false by (symmetry; apply Z.eqb_neq; lia).
    replace (decimal d1 <? decimal d2) with false by (symmetry; apply Z.ltb_ge; lia).
    reflexivity.
  - rewrite H, Z.eqb_refl; reflexivity.
Qed.

Lemma cmp_numeric_aware_witness :
  cmp plain_host false (entry (c_str "img2.png")) (entry (c_str "img10.png"))
  = Returns (-1).
Proof.
  refine (proj1 (proj2 (cmp_numeric_aware plain_host false)
                   (entry (c_str "img2.png")) (entry (c_str "img10.png"))
                   (c_str "img") (c_str "2") (c_str "10") (c_str ".png") (c_str ".png")
                   eq_refl eq_refl eq_refl eq_refl eq_refl _ _
                   eq_refl eq_refl eq_refl eq_refl _ _) _);
    vm_compute; try split; congruence.
Defined.

(** C2, as stated, fails beyond ASCII digit runs of 64 bits: the run
    18446744073709551616 (2^64) denotes a greater number than the run 1 and is
    put first, and fullwidth digits are compared one by one as characters, so
    "file2" is put after "file" followed by fullwidth "10". *)
Lemma cmp_numeric_clause_fails :
  decimal (c_str "18446744073709551616") > decimal (c_str "1") /\
  cmp plain_host false (entry (c_str "file18446744073709551616"))
                       (entry (c_str "file1")) = Returns (-1) /\
  cmp plain_host false (entry (c_str "file2"))
                       (entry (c_str "file" ++ fullwidth 0x31 ++ fullwidth 0x30))
  = Returns 1.
Proof.
  split; [|split]; vm_compute; reflexivity.
Qed.

(** C3, at the failing input.  With the fullwidth name on the left the range
    [CFRangeMake(0, strlen(lhs))] has 15 places for a string of 5 code units,
    and the comparison is not defined; with the same two names the other way
    round the range fits and they compare equal. *)
Theorem cmp_fullwidth_left (host : Host) (current : CFLocale host) :
  strlen fullwidth_file1 = 15 /\
  CFStringCreateWithCString NULL fullwidth_file1 kCFStringEncodingUTF8
  = Some [0xFF46; 0xFF49; 0xFF4C; 0xFF45; 0xFF11] /\
  cmp host current (entry fullwidth_file1) (entry (c_str "file1"))
  = Undefined RangeBeyondString /\
  cmp host current (entry (c_str "file1")) (entry fullwidth_file1) = Returns 0.
Proof.
  repeat split; vm_compute; reflexivity.
Qed.

(** The byte length as range.  Whenever both names are UTF-8 and the left one
    has a byte outside ASCII, the range [CFRangeMake(0, strlen(lhs))] is longer
    than [lhsString] and the comparison is not defined; in particular such a
    name is not compared equal to itself. *)
Theorem cmp_byte_length_as_range (host : Host) (current : CFLocale host)
    (l r : FTSENT) (c1 c2 : list Z) :
  utf8_decode (fts_name l) = Some c1 -> utf8_decode (fts_name r) = Some c2 ->
  forallb is_ascii (fts_name l) = false ->
  CFStringGetLength (utf16_encode c1) < strlen (fts_name l) /\
  cmp host current l r = Undefined RangeBeyondString.
Proof.
  intros H1 H2 NA; split; [|exact (cmp_range_overrun host current l r c1 c2 H1 H2 NA)].
  destruct (decoded_units_bound _ _ _ (Nat.le_refl _) H1) as [_ L].
  specialize (L NA); unfold strlen, CFStringGetLength; lia.
Qed.

Lemma cmp_byte_length_as_range_witness :
  CFStringGetLength (utf16_encode [0xE9]) < strlen e_acute /\
  cmp plain_host false (entry e_acute) (entry e_acute) = Undefined RangeBeyondString.
Proof.
  exact (cmp_byte_length_as_range plain_host false (entry e_acute) (entry e_acute)
           [0xE9] [0xE9] eq_refl eq_refl eq_refl).
Defined.

(** C5, as amended.  [cmp] returns -1, 0 or 1 when the left name is ASCII and
    the right name is UTF-8.  It has no other way of comparing: when a name is
    not UTF-8 the NULL reference goes to the comparison and nothing is
    returned. *)
Theorem cmp_returns_on_decoded_names (host : Host) (current : CFLocale host)
    (l r : FTSENT) :
  (forall cps, forallb is_ascii (fts_name l) = true ->
               utf8_decode (fts_name r) = Some cps ->
               exists z, cmp host current l r = Returns z /\ is_comparison_result z) /\
  (utf8_decode (fts_name l) = None \/ utf8_decode (fts_name r) = None ->
   cmp host current l r = Undefined NullStringRef).
Proof.
  split; [|apply cmp_undecodable].
  intros cps Al Hr.
  exists (compare_loop host true true (fts_name l) (utf16_encode cps)); split.
  - apply cmp_ascii_left; [exact Al|].
    unfold CFStringCreateWithCString; rewrite Z.eqb_refl, Hr; reflexivity.
  - apply compare_loop_result.
Qed.

Lemma cmp_returns_on_decoded_names_witness :
  (exists z, cmp plain_host false (entry (c_str "a")) (entry e_acute) = Returns z /\
             is_comparison_result z) /\
  cmp plain_host false (entry not_utf8) (entry (c_str "a")) = Undefined NullStringRef.
Proof.
  split.
  - exact (proj1 (cmp_returns_on_decoded_names plain_host false
                    (entry (c_str "a")) (entry e_acute)) [0xE9] eq_refl eq_refl).
  - exact (proj2 (cmp_returns_on_decoded_names plain_host false
                    (entry not_utf8) (entry (c_str "a"))) (or_introl eq_refl)).
Defined.

(** C5, as stated, fails: for the name made of the byte 0xFF, which is not
    UTF-8, [cmp] returns nothing, neither the order of the bytes nor any other
    value. *)
Lemma cmp_no_bytewise_fallback :
  utf8_decode not_utf8 = None /\
  cmp plain_host false (entry not_utf8) (entry (c_str "a")) = Undefined NullStringRef /\
  cmp plain_host false (entry not_utf8) (entry (c_str "a"))
  <> Returns (code_unit_order not_utf8 (c_str "a")).
Proof.
  repeat split; vm_compute; congruence.
Qed.

(** C8, as amended.  Two empty names compare equal, and the empty name comes
    before every name that decodes to a string that is not empty. *)
Theorem cmp_empty_name (host : Host) (current : CFLocale host) (l r : FTSENT) :
  fts_name l = [] ->
  (fts_name r = [] -> cmp host current l r = Returns 0) /\
  (forall s, CFStringCreateWithCString NULL (fts_name r) kCFStringEncodingUTF8 = Some s ->
             s <> [] -> cmp host current l r = Returns (-1)).
Proof.
  intros El; split.
  - intros Er; rewrite (cmp_ascii_left host current l r []); rewrite ?El, ?Er;
      [simp compare_loop|..]; reflexivity.
  - intros s Hs Ns.
    rewrite (cmp_ascii_left host current l r s); rewrite ?El; [|reflexivity|exact Hs].
    destruct s; [congruence|simp compare_loop; reflexivity].
Qed.

Lemma cmp_empty_name_witness :
  cmp plain_host false (entry []) (entry []) = Returns 0 /\
  cmp plain_host false (entry []) (entry e_acute) = Returns (-1).
Proof.
  split.
  - exact (proj1 (cmp_empty_name plain_host false (entry []) (entry []) eq_refl) eq_refl).
  - refine (proj2 (cmp_empty_name plain_host false (entry []) (entry e_acute) eq_refl)
              [0xE9] eq_refl _); congruence.
Defined.

(** C8, as stated, fails: the name made of the byte 0xFF is not empty, and the
    empty name does not come before it. *)
Lemma cmp_empty_before_undecodable_fails :
  not_utf8 <> [] /\
  negative (cmp plain_host false (entry []) (entry not_utf8)) = false.
Proof.
  split; [discriminate|vm_compute; reflexivity].
Qed.

(** C9, as amended.  Digit runs are read into a 64-bit unsigned integer that
    wraps: two ASCII names that agree up to a digit run each are ordered by the
    numbers of the runs modulo 2^64, whatever the lengths of the runs, and runs
    with the same residue leave the decision to what follows them. *)
Theorem cmp_digit_runs_modulo (host : Host) (current : CFLocale host) (l r : FTSENT)
    (p d1 d2 t1 t2 : cstring) :
  fts_name l = p ++ d1 ++ t1 -> fts_name r = p ++ d2 ++ t2 ->
  forallb is_ascii (fts_name l) = true -> forallb is_ascii (fts_name r) = true ->
  no_trailing_digit p ->
  d1 <> [] -> d2 <> [] ->
  forallb is_digit d1 = true -> forallb is_digit d2 = true ->
  starts_nondigit t1 = true -> starts_nondigit t2 = true ->
  (decimal d1 mod 2 ^ 64 < decimal d2 mod 2 ^ 64 ->
   cmp host current l r = Returns (-1)) /\
  (decimal d2 mod 2 ^ 64 < decimal d1 mod 2 ^ 64 ->
   cmp host current l r = Returns 1) /\
  (decimal d1 mod 2 ^ 64 = decimal d2 mod 2 ^ 64 ->
   cmp host current l r = cmp host current (entry t1) (entry t2)).
Proof.
  intros El Er Al Ar Hp N1 N2 D1 D2 T1 T2.
  rewrite (cmp_digit_runs host current l r p d1 d2 t1 t2) by assumption.
  change UINT64_MOD with (2 ^ 64).
  unfold less_or_greater, kCFCompareLessThan, kCFCompareGreaterThan.
  repeat split; intros H.
  - replace (decimal d1 mod 2 ^ 64 =? decimal d2 mod 2 ^ 64) with false
      by (symmetry; apply Z.eqb_neq; lia).
    replace (decimal d1 mod 2 ^ 64 <? decimal d2 mod 2 ^ 64) with true
      by (symmetry; apply Z.ltb_lt; lia).
    reflexivity.
  - replace (decimal d1 mod 2 ^ 64 =? decimal d2 mod 2 ^ 64) with false
      by (symmetry; apply Z.eqb_neq; lia).
    replace (decimal d1 mod 2 ^ 64 <? decimal d2 mod 2 ^ 64) with false
      by (symmetry; apply Z.ltb_ge; lia).
    reflexivity.
  - rewrite H, Z.eqb_refl; reflexivity.
Qed.

Lemma cmp_digit_runs_modulo_witness :
  cmp plain_host false (entry (c_str "v18446744073709551617"))
                       (entry (c_str "v5")) = Returns (-1).
Proof.
  refine (proj1 (cmp_digit_runs_modulo plain_host false
                   (entry (c_str "v18446744073709551617")) (entry (c_str "v5"))
                   (c_str "v") (c_str "18446744073709551617") (c_str "5") [] []
                   eq_refl eq_refl eq_refl eq_refl eq_refl _ _
                   eq_refl eq_refl eq_refl eq_refl) _);
    vm_compute; congruence.
Defined.

(** C9, as stated, fails: the run 18446744073709551616 (2^64, twenty digits)
    is longer than the run 1 and denotes a greater number, and [cmp] puts it
    first. *)
Lemma cmp_long_run_wraps :
  (List.length (c_str "18446744073709551616") > List.length (c_str "1"))%nat /\
  decimal (c_str "18446744073709551616") > decimal (c_str "1") /\
  cmp plain_host false (entry (c_str "18446744073709551616")) (entry (c_str "1"))
  = Returns (-1).
Proof.
  split; [vm_compute; lia|split; vm_compute; reflexivity].
Qed.

(** C10, as amended.  When the left name is ASCII and the right name is UTF-8,
    [cmp] returns a value that the two names determine: entries with the same
    names give the same value whatever their other fields hold and whatever the
    current locale of the process is. *)
Theorem cmp_value_from_names (host : Host) (current current' : CFLocale host)
    (l l' r r' : FTSENT) :
  fts_name l = fts_name l' -> fts_name r = fts_name r' ->
  forallb is_ascii (fts_name l) = true -> utf8_decode (fts_name r) <> None ->
  same_result (cmp host current l r) (cmp host current' l' r').
Proof.
  intros Hl Hr Al Dr.
  destruct (utf8_decode (fts_name r)) as [cps|] eqn:D; [|congruence].
  assert (C : CFStringCreateWithCString NULL (fts_name r) kCFStringEncodingUTF8
              = Some (utf16_encode cps)).
  { unfold CFStringCreateWithCString; rewrite Z.eqb_refl, D; reflexivity. }
  exists (compare_loop host true true (fts_name l) (utf16_encode cps)); split.
  - exact (cmp_ascii_left host current l r _ Al C).
  - rewrite Hl in Al |- *; rewrite Hr in C.
    exact (cmp_ascii_left host current' l' r' _ Al C).
Qed.

Lemma cmp_value_from_names_witness :
  same_result
    (cmp plain_host false (entry (c_str "file2")) (entry (c_str "file10")))
    (cmp plain_host true
       {| fts_number := 7; fts_accpath := c_str "x/file2"; fts_path := c_str "x/file2";
          fts_errno := 2; fts_level := 3; fts_info := 8; fts_name := c_str "file2" |}
       {| fts_number := 0; fts_accpath := c_str "y/file10"; fts_path := c_str "y/file10";
          fts_errno := 0; fts_level := 1; fts_info := 1; fts_name := c_str "file10" |}).
Proof.
  refine (cmp_value_from_names plain_host false true
            (entry (c_str "file2"))
            {| fts_number := 7; fts_accpath := c_str "x/file2";
               fts_path := c_str "x/file2"; fts_errno := 2; fts_level := 3;
               fts_info := 8; fts_name := c_str "file2" |}
            (entry (c_str "file10"))
            {| fts_number := 0; fts_accpath := c_str "y/file10";
               fts_path := c_str "y/file10"; fts_errno := 0; fts_level := 1;
               fts_info := 1; fts_name := c_str "file10" |}
            eq_refl eq_refl eq_refl _).
  discriminate.
Defined.

(** C10, as stated, fails.  For the name made of the byte 0xFF no value is
    returned, so not the same value twice; and for a left name with a byte
    outside ASCII the range is longer than the string, and the loop over that
    range decides by the unit that lies after the string: with "e-acute" on the
    left and "e-acute" followed by "a" on the right the result is -1, 0 or 1 as
    that unit is below, equal to or above "a". *)
Lemma cmp_result_not_from_names_alone :
  ~ same_result (cmp plain_host false (entry not_utf8) (entry not_utf8))
                (cmp plain_host true (entry not_utf8) (entry not_utf8)) /\
  loop_over_passed_range plain_host e_acute (e_acute ++ [0x61]) [0x60] = Some (-1) /\
  loop_over_passed_range plain_host e_acute (e_acute ++ [0x61]) [0x61] = Some 0 /\
  loop_over_passed_range plain_host e_acute (e_acute ++ [0x61]) [0x62] = Some 1.
Proof.
  split; [|repeat split; vm_compute; reflexivity].
  intros (z & H & _); vm_compute in H; discriminate.
Qed.

(** The model does have a locale to depend on: with [kCFCompareLocalized] the
    same comparison follows the current locale. *)
Lemma localized_comparison_follows_locale :
  CFStringCompareWithOptionsAndLocale plain_host false (Some (c_str "a"))
    (Some (c_str "b")) (CFRangeMake 0 1) kCFCompareLocalized NULL = Returns (-1) /\
  CFStringCompareWithOptionsAndLocale plain_host true (Some (c_str "a"))
    (Some (c_str "b")) (CFRangeMake 0 1) kCFCompareLocalized NULL = Returns 1.
Proof. split; reflexivity. Qed.

(** ** The order on ASCII names *)

(** C4, as amended.  On entries with ASCII names [cmp] is a strict weak
    ordering: a name is equal to itself, swapping the arguments negates the
    result, "before" is transitive, and names that compare equal compare alike
    with every third name. *)
Theorem cmp_ascii_strict_weak_order (host : Host) (current : CFLocale host)
    (a b c : FTSENT) :
  forallb is_ascii (fts_name a) = true ->
  forallb is_ascii (fts_name b) = true ->
  forallb is_ascii (fts_name c) = true ->
  cmp host current a a = Returns 0 /\
  (exists z, cmp host current a b = Returns z /\ cmp host current b a = Returns (- z)) /\
  (cmp host current a b = Returns (-1) -> cmp host current b c = Returns (-1) ->
   cmp host current a c = Returns (-1)) /\
  (cmp host current a b = Returns 0 -> cmp host current a c = cmp host current b c).
Proof.
  intros Aa Ab Ac.
  rewrite !cmp_ascii_keys by assumption.
  repeat split.
  - rewrite code_unit_order_refl; reflexivity.
  - eexists; split; [reflexivity|]. rewrite code_unit_order_opp; reflexivity.
  - intros H1 H2; injection H1 as H1; injection H2 as H2.
    rewrite (code_unit_order_trans _ _ _ H1 H2); reflexivity.
  - intros H; injection H as H. apply code_unit_order_eq in H; rewrite H; reflexivity.
Qed.

Lemma cmp_ascii_strict_weak_order_witness :
  cmp plain_host false (entry (c_str "img2")) (entry (c_str "img10")) = Returns (-1) /\
  cmp plain_host false (entry (c_str "img10")) (entry (c_str "img20")) = Returns (-1) /\
  cmp plain_host false (entry (c_str "img2")) (entry (c_str "img20")) = Returns (-1).
Proof.
  assert (H1 : cmp plain_host false (entry (c_str "img2")) (entry (c_str "img10"))
               = Returns (-1)) by (vm_compute; reflexivity).
  assert (H2 : cmp plain_host false (entry (c_str "img10")) (entry (c_str "img20"))
               = Returns (-1)) by (vm_compute; reflexivity).
  split; [exact H1|split; [exact H2|]].
  exact (proj1 (proj2 (proj2 (cmp_ascii_strict_weak_order plain_host false
                  (entry (c_str "img2")) (entry (c_str "img10")) (entry (c_str "img20"))
                  eq_refl eq_refl eq_refl))) H1 H2).
Defined.

(** C4, as stated, fails: the name made of the byte 0xFF, which is not UTF-8,
    does not compare equal to itself; nothing is returned. *)
Lemma cmp_not_reflexive_on_undecodable :
  utf8_decode not_utf8 = None /\
  cmp plain_host false (entry not_utf8) (entry not_utf8) = Undefined NullStringRef /\
  cmp plain_host false (entry not_utf8) (entry not_utf8) <> Returns 0.
Proof.
  split; [|split]; vm_compute; congruence.
Qed.

(** The order does not extend to fullwidth digits on the right: they are folded
    to ASCII digits one by one and never read as a number, so "2" is before
    "10", "10" is before fullwidth "10" followed by "a", and "2" is after it. *)
Remark cmp_fullwidth_digits_not_numeric (host : Host) (current : CFLocale host) :
  let wide_10a := [0xEF; 0xBC; 0x91; 0xEF; 0xBC; 0x90; 0x61] in
  cmp host current (entry (c_str "2")) (entry (c_str "10")) = Returns (-1) /\
  cmp host current (entry (c_str "10")) (entry wide_10a) = Returns (-1) /\
  cmp host current (entry (c_str "2")) (entry wide_10a) = Returns 1.
Proof. repeat split; vm_compute; reflexivity. Qed.

(** * Further properties of the comparator *)

(** ** Where [cmp] keeps to the contract *)

Ltac settle_cases :=
  repeat match goal with
         | |- _ /\ _ => split
         | |- _ <-> _ => split
         | |- _ -> _ => intro
         | H : _ /\ _ |- _ => destruct H
         | H : _ \/ _ |- _ => destruct H
         | H : exists _, _ |- _ => destruct H
         end;
  try discriminate; try congruence; auto.

(** The calls [cmp] makes are inside CoreFoundation's contract exactly when the
    left name is ASCII and the right name is UTF-8.  Otherwise a NULL reference
    is passed (a name that is not UTF-8) or the range is longer than the string
    (both names UTF-8, a byte outside ASCII in the left one); what the program
    returns then is not settled by the contract.  The condition is not
    symmetric in the two names. *)
Theorem cmp_contract_cases (host : Host) (current : CFLocale host) (l r : FTSENT) :
  (cmp host current l r = Undefined NullStringRef <->
   utf8_decode (fts_name l) = None \/ utf8_decode (fts_name r) = None) /\
  (cmp host current l r = Undefined RangeBeyondString <->
   utf8_decode (fts_name l) <> None /\ utf8_decode (fts_name r) <> None /\
   forallb is_ascii (fts_name l) = false) /\
  ((exists z, cmp host current l r = Returns z /\ is_comparison_result z) <->
   forallb is_ascii (fts_name l) = true /\ utf8_decode (fts_name r) <> None).
Proof.
  destruct (utf8_decode (fts_name r)) as [c2|] eqn:Dr.
  2:{ rewrite (cmp_undecodable host current l r (or_intror Dr)); settle_cases. }
  destruct (utf8_decode (fts_name l)) as [c1|] eqn:Dl.
  2:{ rewrite (cmp_undecodable host current l r (or_introl Dl)).
      assert (NA : forallb is_ascii (fts_name l) = false).
      { destruct (forallb is_ascii (fts_name l)) eqn:A; [|reflexivity].
        rewrite (utf8_decode_ascii _ A) in Dl; discriminate. }
      rewrite NA; settle_cases. }
  destruct (forallb is_ascii (fts_name l)) eqn:Al.
  - assert (C : CFStringCreateWithCString NULL (fts_name r) kCFStringEncodingUTF8
                = Some (utf16_encode c2)).
    { unfold CFStringCreateWithCString; rewrite Z.eqb_refl, Dr; reflexivity. }
    rewrite (cmp_ascii_left host current l r _ Al C).
    split; [settle_cases|split; [settle_cases|]].
    split; [settle_cases|intros _].
    eexists; split; [reflexivity|apply compare_loop_result].
  - rewrite (cmp_range_overrun host current l r c1 c2 Dl Dr Al); settle_cases.
Qed.

(** ** The order on ASCII names, continued *)

Lemma compare_loop_ascii_refl (host : Host) (s : list Z) :
  forallb is_ascii s = true -> compare_loop host true true s s = 0.
Proof.
  intros A; rewrite (compare_loop_keys host (List.length s)) by auto.
  apply code_unit_order_refl.
Qed.

Lemma cmp_swap_ascii (host : Host) (current : CFLocale host) (l r : FTSENT) (z : Z) :
  forallb is_ascii (fts_name l) = true -> forallb is_ascii (fts_name r) = true ->
  cmp host current l r = Returns z -> cmp host current r l = Returns (- z).
Proof.
  intros Al Ar; rewrite !cmp_ascii_keys by assumption.
  intros H; injection H as <-; rewrite code_unit_order_opp; reflexivity.
Qed.

(** The first place where two ASCII names differ decides by character code
    when the two characters are not both digits and no digit run leads up to
    the place: the comparison is case sensitive, and a digit is compared with a
    letter or a sign as a character. *)
Theorem cmp_first_difference (host : Host) (current : CFLocale host) (l r : FTSENT)
    (p t1 t2 : cstring) (c1 c2 : Z) :
  fts_name l = p ++ c1 :: t1 -> fts_name r = p ++ c2 :: t2 ->
  forallb is_ascii (fts_name l) = true -> forallb is_ascii (fts_name r) = true ->
  no_trailing_digit p ->
  c1 <> c2 -> is_digit c1 && is_digit c2 = false ->
  cmp host current l r = Returns (if c1 <? c2 then -1 else 1).
Proof.
  intros El Er Al Ar Hp N D.
  rewrite (cmp_ascii_left host current l r (fts_name r) Al (create_ascii _ Ar)).
  rewrite El, Er, (compare_loop_common_prefix host true (List.length p)) by auto.
  rewrite El in Al; rewrite Er in Ar.
  apply forallb_app_r in Al, Ar; cbn [forallb] in Al, Ar.
  apply andb_prop in Al as [C1 _]; apply andb_prop in Ar as [C2 _].
  simp compare_loop; cbn [andb]; rewrite D.
  destruct (ascii_unfolded host c1 t1 C1) as [-> _].
  destruct (ascii_unfolded host c2 t2 C2) as [-> _].
  apply Z.eqb_neq in N; rewrite N; reflexivity.
Qed.

Lemma cmp_first_difference_witness :
  cmp plain_host false (entry (c_str "img_Z.png")) (entry (c_str "img_a.png"))
  = Returns (-1).
Proof.
  refine (cmp_first_difference plain_host false
            (entry (c_str "img_Z.png")) (entry (c_str "img_a.png"))
            (c_str "img_") (c_str ".png") (c_str ".png") 0x5A 0x61
            eq_refl eq_refl eq_refl eq_refl eq_refl _ eq_refl).
  discriminate.
Defined.

(** An ASCII name comes before every ASCII name that extends it, and the
    extension after it, as long as the extension does not lengthen a digit run
    at the end of the name. *)
Theorem cmp_extension (host : Host) (current : CFLocale host) (l r : FTSENT)
    (p d x : cstring) :
  fts_name l = p ++ d -> fts_name r = p ++ d ++ x ->
  forallb is_ascii (fts_name l) = true -> forallb is_ascii (fts_name r) = true ->
  no_trailing_digit p -> forallb is_digit d = true ->
  x <> [] -> d = [] \/ starts_nondigit x = true ->
  cmp host current l r = Returns (-1) /\ cmp host current r l = Returns 1.
Proof.
  intros El Er Al Ar Hp Hd Nx Hx.
  assert (H : cmp host current l r = Returns (-1)).
  { rewrite (cmp_ascii_left host current l r (fts_name r) Al (create_ascii _ Ar)).
    rewrite El, Er.
    destruct d as [|c ds].
    - rewrite app_nil_r; cbn [app].
      rewrite <- (app_nil_r p) at 1.
      rewrite (compare_loop_common_prefix host true (List.length p)) by auto.
      destruct x; [congruence|simp compare_loop; reflexivity].
    - destruct Hx as [Hx|Hx]; [discriminate|].
      rewrite <- (app_nil_r (c :: ds)) at 1.
      rewrite (compare_loop_digit_runs host true p (c :: ds) (c :: ds) [] x)
        by (auto; discriminate).
      rewrite Z.eqb_refl.
      destruct x; [congruence|simp compare_loop; reflexivity]. }
  split; [exact H|].
  exact (cmp_swap_ascii host current l r (-1) Al Ar H).
Qed.

Lemma cmp_extension_witness :
  cmp plain_host false (entry (c_str "file1")) (entry (c_str "file1.txt"))
  = Returns (-1) /\
  cmp plain_host false (entry (c_str "file1.txt")) (entry (c_str "file1"))
  = Returns 1.
Proof.
  refine (cmp_extension plain_host false
            (entry (c_str "file1")) (entry (c_str "file1.txt"))
            (c_str "file") (c_str "1") (c_str ".txt")
            eq_refl eq_refl eq_refl eq_refl eq_refl eq_refl _ (or_intror eq_refl)).
  discriminate.
Defined.

Lemma decimal_leading_zeros (zeros d : list Z) :
  Forall (fun c => c = 0x30) zeros -> decimal (zeros ++ d) = decimal d.
Proof.
  intros Hz; unfold decimal, decimal_from; rewrite fold_left_app.
  f_equal. induction Hz as [|c zs Hc _ IH]; [reflexivity|].
  subst c; exact IH.
Qed.

Lemma zeros_are_digits (zeros : list Z) :
  Forall (fun c => c = 0x30) zeros -> forallb is_digit zeros = true.
Proof.
  induction 1 as [|c zs Hc _ IH]; [reflexivity|].
  subst c; cbn [forallb]; rewrite IH; reflexivity.
Qed.

(** Leading zeros do not count.  An ASCII name and the same name with zeros put
    in front of one of its digit runs compare equal, and they compare alike
    with every other ASCII name, on either side: the comparator does not tell
    "file1" from "file01". *)
Theorem cmp_leading_zeros (host : Host) (current : CFLocale host) (l l' : FTSENT)
    (p zeros d t : cstring) :
  fts_name l = p ++ d ++ t -> fts_name l' = p ++ (zeros ++ d) ++ t ->
  forallb is_ascii (fts_name l) = true ->
  no_trailing_digit p -> Forall (fun c => c = 0x30) zeros ->
  d <> [] -> forallb is_digit d = true -> starts_nondigit t = true ->
  cmp host current l l' = Returns 0 /\
  forall r, forallb is_ascii (fts_name r) = true ->
            cmp host current l r = cmp host current l' r /\
            cmp host current r l = cmp host current r l'.
Proof.
  intros El El' Al Hp Hz Nd Hd Ht.
  assert (Al' : forallb is_ascii (fts_name l') = true).
  { rewrite El in Al; rewrite El', !forallb_app in *.
    apply andb_prop in Al as [Ap Al]; apply andb_prop in Al as [Ad At].
    rewrite Ap, Ad, At, !andb_true_r; cbn [andb].
    clear - Hz; induction Hz as [|c zs Hc _ IH]; [reflexivity|].
    subst c; cbn [forallb]; rewrite IH; reflexivity. }
  assert (E : cmp host current l l' = Returns 0).
  { rewrite (cmp_ascii_left host current l l' (fts_name l') Al (create_ascii _ Al')).
    rewrite El, El'.
    rewrite (compare_loop_digit_runs host true p d (zeros ++ d) t t); auto.
    - rewrite decimal_leading_zeros, Z.eqb_refl by exact Hz.
      f_equal; apply compare_loop_ascii_refl.
      rewrite El in Al; apply forallb_app_r, forallb_app_r in Al; exact Al.
    - destruct zeros; [exact Nd|discriminate].
    - rewrite forallb_app, (zeros_are_digits zeros Hz), Hd; reflexivity. }
  split; [exact E|].
  intros r Ar.
  rewrite (cmp_ascii_keys host current l l' Al Al') in E; injection E as E.
  apply code_unit_order_eq in E.
  rewrite !cmp_ascii_keys by assumption.
  rewrite E; split; reflexivity.
Qed.

Lemma cmp_leading_zeros_witness :
  cmp plain_host false (entry (c_str "file1")) (entry (c_str "file01")) = Returns 0 /\
  forall r, forallb is_ascii (fts_name r) = true ->
            cmp plain_host false (entry (c_str "file1")) r
            = cmp plain_host false (entry (c_str "file01")) r /\
            cmp plain_host false r (entry (c_str "file1"))
            = cmp plain_host false r (entry (c_str "file01")).
Proof.
  refine (cmp_leading_zeros plain_host false
            (entry (c_str "file1")) (entry (c_str "file01"))
            (c_str "file") (c_str "0") (c_str "1") []
            eq_refl eq_refl eq_refl eq_refl _ _ eq_refl eq_refl).
  - repeat constructor.
  - discriminate.
Defined.

(** ** Fullwidth forms on the right *)

Lemma fullwidth_decodes_from (n : nat) (b : cstring) :
  (n < 94)%nat ->
  utf8_decode (fullwidth (0x21 + Z.of_nat n) ++ b)
  = option_map (cons (0x21 + Z.of_nat n + 0xFEE0)) (utf8_decode b).
Proof.
  intros H. do 94 (destruct n as [|n]; [reflexivity|]). lia.
Qed.

Lemma fullwidth_decodes (c : Z) (b : cstring) :
  0x21 <= c <= 0x7E ->
  utf8_decode (fullwidth c ++ b) = option_map (cons (c + 0xFEE0)) (utf8_decode b).
Proof.
  intros H.
  replace c with (0x21 + Z.of_nat (Z.to_nat (c - 0x21))) by lia.
  apply fullwidth_decodes_from; lia.
Qed.

Lemma create_cons_ascii (c : Z) (b : cstring) (s : CFString) :
  is_ascii c = true ->
  CFStringCreateWithCString NULL b kCFStringEncodingUTF8 = Some s ->
  CFStringCreateWithCString NULL (c :: b) kCFStringEncodingUTF8 = Some (c :: s).
Proof.
  unfold CFStringCreateWithCString; rewrite Z.eqb_refl; intros Hc.
  cbn [utf8_decode]; rewrite Hc.
  destruct (utf8_decode b) as [cps|]; [|discriminate].
  cbn [option_map]; intros H; injection H as <-.
  rewrite utf16_encode_cons, utf16_units_bmp; [reflexivity|].
  apply andb_prop in Hc as [_ Hc]; apply Z.ltb_lt in Hc; lia.
Qed.

Lemma create_fullwidth (c : Z) (b : cstring) (s : CFString) :
  0x21 <= c <= 0x7E ->
  CFStringCreateWithCString NULL b kCFStringEncodingUTF8 = Some s ->
  CFStringCreateWithCString NULL (fullwidth c ++ b) kCFStringEncodingUTF8
  = Some ((c + 0xFEE0) :: s).
Proof.
  unfold CFStringCreateWithCString; rewrite Z.eqb_refl; intros Hc.
  rewrite (fullwidth_decodes c b Hc).
  destruct (utf8_decode b) as [cps|]; [|discriminate].
  cbn [option_map]; intros H; injection H as <-.
  rewrite utf16_encode_cons, utf16_units_bmp; [reflexivity|lia].
Qed.

Lemma fullwidth_unfolded (host : Host) (c : Z) (t : list Z) :
  0x21 <= c <= 0x7E ->
  folded host (c + 0xFEE0) t = c /\ after_character (c + 0xFEE0) t = t /\
  is_digit (c + 0xFEE0) = false.
Proof.
  intros H.
  assert (S : is_high_surrogate (c + 0xFEE0) = false).
  { unfold is_high_surrogate; apply andb_false_iff; right; apply Z.leb_gt; lia. }
  unfold folded, after_character, long_character, fold_width, is_digit.
  destruct t as [|c' t']; rewrite ?S; cbn [andb fst snd];
    (replace (0xFF01 <=? c + 0xFEE0) with true by (symmetry; apply Z.leb_le; lia));
    (replace (c + 0xFEE0 <=? 0xFF5E) with true by (symmetry; apply Z.leb_le; lia));
    (replace (c + 0xFEE0 <=? 0x39) with false by (symmetry; apply Z.leb_gt; lia));
    cbn [andb]; repeat split; lia.
Qed.

Lemma width_variant_loop (host : Host) (a b : cstring) :
  width_variant a b ->
  forallb is_ascii a = true /\
  exists s, CFStringCreateWithCString NULL b kCFStringEncodingUTF8 = Some s /\
            compare_loop host true true a s = 0.
Proof.
  induction 1 as [|c a b Hc Hd _ [Aa (s & Hs & Hl)]|c a b Hc _ [Aa (s & Hs & Hl)]].
  - split; [reflexivity|]. exists []; split; [reflexivity|].
    simp compare_loop; reflexivity.
  - split; [cbn [forallb]; rewrite Hc, Aa; reflexivity|].
    exists (c :: s); split; [exact (create_cons_ascii c b s Hc Hs)|].
    simp compare_loop; rewrite Hd, Z.eqb_refl; cbn [andb]; exact Hl.
  - assert (Ac : is_ascii c = true).
    { unfold is_ascii; apply andb_true_intro; split;
        [apply Z.leb_le|apply Z.ltb_lt]; lia. }
    split; [cbn [forallb]; rewrite Ac, Aa; reflexivity|].
    exists ((c + 0xFEE0) :: s); split; [exact (create_fullwidth c b s Hc Hs)|].
    simp compare_loop.
    destruct (fullwidth_unfolded host c s Hc) as (F2 & R2 & D2).
    destruct (ascii_unfolded host c a Ac) as [F1 R1].
    rewrite D2, F1, F2, R1, R2, andb_false_r, Z.eqb_refl; cbn [negb].
    replace (c =? c + 0xFEE0) with false by (symmetry; apply Z.eqb_neq; lia).
    exact Hl.
Qed.

(** Width insensitivity, where it is reached.  An ASCII name on the left and
    the same name on the right with any of its characters in their fullwidth
    forms, all of its digits among them, compare equal. *)
Theorem cmp_width_variant (host : Host) (current : CFLocale host) (l r : FTSENT) :
  width_variant (fts_name l) (fts_name r) -> cmp host current l r = Returns 0.
Proof.
  intros H; destruct (width_variant_loop host _ _ H) as [Al (s & Hs & Hl)].
  rewrite (cmp_ascii_left host current l r s Al Hs), Hl; reflexivity.
Qed.

Lemma cmp_width_variant_witness :
  cmp plain_host false (entry (c_str "a1")) (entry (0x61 :: fullwidth 0x31 ++ []))
  = Returns 0.
Proof.
  apply cmp_width_variant.
  apply wv_keep; [reflexivity|reflexivity|].
  apply wv_wide; [lia|apply wv_nil].
Defined.

(** A digit that is kept while the next one is written in its fullwidth form
    cuts the digit run in two: "12" and "1" followed by fullwidth "2" do not
    compare equal. *)
Remark cmp_digit_run_cut (host : Host) (current : CFLocale host) :
  cmp host current (entry (c_str "12")) (entry (0x31 :: fullwidth 0x32)) = Returns 1.
Proof. vm_compute; reflexivity. Qed.
